(** * Portfolio generator: merge, classification, normalisation and assets

    A shallow embedding of the pure core of
    [src/update_config.py], [src/generate_index.py] and [src/yaml_parser.py].

    Conventions of the model.
    - A Python [str] is a [string], the bytes of its UTF-8 form.  The
      character classes and [upper] below are Python's on code points
      0..127 (the text GitHub allows in a repository name) and leave every
      other character alone.  [lower], which also meets descriptions in
      any script, gives every ASCII letter of [s.lower()] at its place,
      also the two that come from characters beyond ASCII.
    - A Python [int] is a [Z]; masking with [0xFFFFFFFF] is [Z.land].
    - A value loaded from YAML is a [value]: null, a boolean, an integer,
      a string, a sequence or a mapping (floats and dates, which no
      property below concerns, are left out).  A Python [dict] is a
      [gmap string value], i.e. the dictionary restricted to its [str] keys,
      the only keys this program ever looks up or writes.
    - [update_config.py] and [generate_index.py] share their helpers word
      for word and differ in the merge loop; each loop is modelled on its
      own.
    - What the program obtains from the outside (the hosting API, the YAML
      parser, the file system) enters as an argument. *)

From Stdlib Require Import ZArith List String Ascii Lia Bool.
From Stdlib Require Import Sorting.Permutation Sorting.Sorted.
From Stdlib Require Import Numbers.DecimalString.
From stdpp Require Import base option gmap strings list.

Open Scope string_scope.
Open Scope list_scope.

(* ===================================================================== *)
(** ** Python strings *)
(* ===================================================================== *)

(** [ord(ch)] *)
Definition ord (c : ascii) : Z := Z.of_N (N_of_ascii c).

Definition in_range (lo hi : N) (c : ascii) : bool :=
  (lo <=? N_of_ascii c)%N && (N_of_ascii c <=? hi)%N.

Definition is_upper (c : ascii) : bool := in_range 65 90 c.
Definition is_lower (c : ascii) : bool := in_range 97 122 c.
Definition is_digit (c : ascii) : bool := in_range 48 57 c.

(** [ch.isalnum()] *)
Definition isalnum (c : ascii) : bool := is_digit c || is_upper c || is_lower c.

(** [ch.isspace()]: tab, line feed, vertical tab, form feed, carriage
    return, the four separators 0x1c..0x1f, and the space. *)
Definition isspace (c : ascii) : bool := in_range 9 13 c || in_range 28 32 c.

Definition lower_char (c : ascii) : ascii :=
  if is_upper c then ascii_of_N (N_of_ascii c + 32) else c.

Definition upper_char (c : ascii) : ascii :=
  if is_lower c then ascii_of_N (N_of_ascii c - 32) else c.

Fixpoint str_map (f : ascii -> ascii) (s : string) : string :=
  match s with
  | EmptyString => EmptyString
  | String c s' => String (f c) (str_map f s')
  end.

(** The byte of code [n]. *)
Definition is_byte (n : N) (c : ascii) : bool := (N_of_ascii c =? n)%N.

(** The two characters beyond ASCII whose lower case has an ASCII letter,
    in UTF-8: KELVIN SIGN (U+212A, bytes E2 84 AA), whose lower case is
    [k], and LATIN CAPITAL LETTER I WITH DOT ABOVE (U+0130, bytes C4 B0),
    whose lower case is [i] followed by COMBINING DOT ABOVE (U+0307,
    bytes CC 87).  Both are put in lower case here; the rest of the text
    is kept. *)
Fixpoint lower_beyond_ascii (s : string) : string :=
  match s with
  | EmptyString => EmptyString
  | String c s1 =>
      match s1 with
      | EmptyString => String c EmptyString
      | String d s2 =>
          if is_byte 196 c && is_byte 176 d
          then String "i" (String (ascii_of_N 204) (String (ascii_of_N 135)
                 (lower_beyond_ascii s2)))
          else
            match s2 with
            | EmptyString => String c (lower_beyond_ascii s1)
            | String e s3 =>
                if is_byte 226 c && is_byte 132 d && is_byte 170 e
                then String "k" (lower_beyond_ascii s3)
                else String c (lower_beyond_ascii s1)
            end
      end
  end.

(** [s.lower()], as far as this program reads it.  Every ASCII letter of
    [s.lower()] stands here at its place, whether it comes from an ASCII
    letter or from one of the two characters above, and the result is
    empty only for the empty string: that is all that [keyword in
    s.lower()], for the ASCII keywords, [not s.lower()] and the slug of an
    ASCII name depend on.  The lower case of any other character beyond
    ASCII has no ASCII character; it is not computed, the character is
    kept. *)
Definition lower (s : string) : string :=
  str_map lower_char (lower_beyond_ascii s).

(** [s.upper()] *)
Definition upper (s : string) : string := str_map upper_char s.

(** [kw in s] *)
Fixpoint contains (kw s : string) : bool :=
  String.prefix kw s ||
  match s with
  | EmptyString => false
  | String _ s' => contains kw s'
  end.

(** [s.replace(a, b)] for one-character [a] and [b] *)
Definition replace_char (a b : ascii) (s : string) : string :=
  str_map (fun c => if Ascii.eqb c a then b else c) s.

(** The maximal runs of characters that are not separators.
    [cur] is the run being read. *)
Fixpoint split_by (sep : ascii -> bool) (cur s : string) : list string :=
  match s with
  | EmptyString => if String.eqb cur "" then [] else [cur]
  | String c s' =>
      if sep c
      then (if String.eqb cur "" then split_by sep "" s'
            else cur :: split_by sep "" s')
      else split_by sep (cur +:+ String c "") s'
  end.

(** [s] without its separators. *)
Fixpoint remove_seps (sep : ascii -> bool) (s : string) : string :=
  match s with
  | EmptyString => EmptyString
  | String c s' =>
      if sep c then remove_seps sep s' else String c (remove_seps sep s')
  end.

(** [s.split()]: the separators are the whitespace characters. *)
Definition split (s : string) : list string := split_by isspace "" s.

(** [s[:n]] for [n >= 0] *)
Fixpoint slice_to (n : nat) (s : string) : string :=
  match n, s with
  | S n', String c s' => String c (slice_to n' s')
  | _, _ => EmptyString
  end.

(** [''.join(l)] *)
Definition join (l : list string) : string := fold_right String.append "" l.

(** [str(n)] for an integer *)
Definition str_of_int (z : Z) : string := NilZero.string_of_int (Z.to_int z).

(* ===================================================================== *)
(** ** Python values and dictionaries *)
(* ===================================================================== *)

#[warnings="-register-all"]
Inductive value : Type :=
  | VNone
  | VBool (b : bool)
  | VInt (z : Z)
  | VStr (s : string)
  | VList (l : list value)
  | VDict (d : gmap string value).

Abbreviation dict := (gmap string value).

(** Truth value of an object, as [or], [if] and [not] see it. *)
Definition truthy (v : value) : bool :=
  match v with
  | VNone => false
  | VBool b => b
  | VInt z => negb (z =? 0)%Z
  | VStr s => negb (String.eqb s "")
  | VList l => negb (Nat.eqb (length l) 0)
  | VDict d => negb (Nat.eqb (size d) 0)
  end.

(** [a or b] *)
Definition py_or (a b : value) : value := if truthy a then a else b.

(** [d.get(k)] and [d.get(k, dflt)] *)
Definition dict_get (d : dict) (k : string) : value := default VNone (d !! k).
Definition dict_get_or (d : dict) (k : string) (dflt : value) : value :=
  default dflt (d !! k).

(** Lists and dictionaries cannot be dictionary keys. *)
Definition hashable (v : value) : bool :=
  match v with
  | VList _ | VDict _ => false
  | _ => true
  end.

(** The string held by a value the program knows to be a [str]. *)
Definition str_of (v : value) : string :=
  match v with
  | VStr s => s
  | _ => ""
  end.

(** Outcome of a call that may raise. *)
Inductive result (A : Type) : Type :=
  | Return (a : A)
  | Raise (exn : string).
Arguments Return {A} a.
Arguments Raise {A} exn.

(* ===================================================================== *)
(** ** Repository records, as the hosting API delivers them *)
(* ===================================================================== *)

Module Repo.
Record t : Type := mk {
  name : string;
  description : option string;      (* [None] when the repository has none *)
  html_url : string;
  language : option string;
  stargazers_count : Z;
  forks_count : Z;
  get_topics : result (list string); (* the call may raise *)
  fork : bool;
  private : bool;
  updated_at : option string         (* [Some s]: a datetime, [s] its isoformat() *)
}.
End Repo.

(** [x or dflt] for an attribute [x] that is a [str] or [None] *)
Definition str_or (x : option string) (dflt : string) : string :=
  match x with
  | Some s => if String.eqb s "" then dflt else s
  | None => dflt
  end.

(** [repo.get_topics()] guarded by [try ... except Exception: topics = []] *)
Definition topics_of (repo : Repo.t) : list string :=
  match Repo.get_topics repo with
  | Return l => l
  | Raise _ => []
  end.

(* ===================================================================== *)
(** ** Stable hash assignment: [get_animal_for_project] *)
(* ===================================================================== *)

Definition animals : list string := [
  "🦁"; "🐯"; "🐻"; "🐼"; "🐨"; "🐵"; "🐶"; "🐺"; "🦊"; "🦝";
  "🐱"; "🦁"; "🐴"; "🦄"; "🦓"; "🦌"; "🐮"; "🐷"; "🐗"; "🐭";
  "🐹"; "🐰"; "🐇"; "🐿️"; "🦔"; "🦇"; "🐻‍❄️"; "🐨"; "🐼"; "🦥";
  "🦦"; "🦨"; "🦘"; "🦡"; "🐾"; "🦃"; "🐔"; "🐓"; "🐣"; "🐤";
  "🐥"; "🐦"; "🐧"; "🕊️"; "🦅"; "🦆"; "🦢"; "🦉"; "🦤"; "🪶";
  "🦩"; "🦚"; "🦜"; "🐸"; "🐊"; "🐢"; "🦎"; "🐍"; "🐲"; "🐉";
  "🦕"; "🦖"; "🐳"; "🐋"; "🐬"; "🦭"; "🐟"; "🐠"; "🐡"; "🦈";
  "🐙"; "🐚"; "🪸"; "🐌"; "🦋"; "🐛"; "🐝"; "🪲"; "🐞"; "🦗";
  "🕷️"; "🦂"; "🦟"; "🪰"; "🪱"; "🦠"
].

(** One turn of the loop: [h = ((h << 5) - h) + ord(ch); h = h & 0xFFFFFFFF] *)
Definition animal_step (h : Z) (ch : ascii) : Z :=
  Z.land ((Z.shiftl h 5 - h) + ord ch) 0xFFFFFFFF.

Definition animal_hash (project_name : string) : Z :=
  fold_left animal_step (list_ascii_of_string project_name) 0%Z.

(** [index = abs(h) % len(palette)] *)
Definition palette_index (n : nat) (project_name : string) : Z :=
  (Z.abs (animal_hash project_name) mod Z.of_nat n)%Z.

(** The body of [get_animal_for_project] over the palette it reads. *)
Definition pick (palette : list string) (project_name : string) : string :=
  nth (Z.to_nat (palette_index (length palette) project_name)) palette "".

Definition get_animal_for_project (project_name : string) : string :=
  pick animals project_name.

(* ===================================================================== *)
(** ** Classification heuristic: [get_auto_classification] *)
(* ===================================================================== *)

Definition training_keywords : list string := [
  "tutorial"; "course"; "learning"; "practice"; "exercise";
  "training"; "workshop"; "lesson"; "bootcamp"; "skill";
  "learn"; "study"; "example"; "sample"; "demo"
].

(** [for keyword in training_keywords: if keyword in s: return ...] *)
Definition keyword_in (s : string) : bool :=
  existsb (fun keyword => contains keyword s) training_keywords.



Definition get_auto_classification (repo : Repo.t) : string :=
  let name := lower (Repo.name repo) in
  let description := lower (str_or (Repo.description repo) "") in
  let topics := topics_of repo in
  if keyword_in name then "training"
  else if keyword_in description then "training"
  else if existsb (fun topic => keyword_in (lower topic)) topics then "training"
  else if Repo.fork repo && (Repo.stargazers_count repo =? 0)%Z
          && String.eqb description ""
       then "training"
  else "project".

(* ===================================================================== *)
(** ** Config normaliser: [yaml_parser.py] *)
(* ===================================================================== *)

(** The dictionary literal built from one item [p] that is a mapping. *)
Definition normalized (p : dict) : dict :=
  <["updated_at" := dict_get_or p "updated_at" (VStr "")]>
  (<["topics" := py_or (dict_get_or p "topics" (VList [])) (VList [])]>
  (<["forks" := dict_get_or p "forks" (VInt 0)]>
  (<["stars" := dict_get_or p "stars" (VInt 0)]>
  (<["language" := dict_get_or p "language" (VStr "")]>
  (<["image" := dict_get_or p "image" (VStr "")]>
  (<["classification" := dict_get_or p "classification" (VStr "")]>
  (<["url" := dict_get_or p "url" (VStr "")]>
  (<["description" := dict_get_or p "description" (VStr "")]>
  (<["name" := dict_get p "name"]> ∅))))))))).

(** [p.get(...)] is an attribute access: it raises when [p] is not a
    mapping. *)
Definition normalize_item (p : value) : result dict :=
  match p with
  | VDict p => Return (normalized p)
  | _ => Raise "AttributeError"
  end.

(** The keys of a normalised record. *)
Definition project_keys : list string := [
  "name"; "description"; "url"; "classification"; "image";
  "language"; "stars"; "forks"; "topics"; "updated_at"
].

(** The [for p in projects] loop: the first item that raises ends it. *)
Fixpoint normalize_items (projects : list value) : result (list dict) :=
  match projects with
  | [] => Return []
  | p :: rest =>
      match normalize_item p with
      | Raise e => Raise e
      | Return proj =>
          match normalize_items rest with
          | Raise e => Raise e
          | Return others => Return (proj :: others)
          end
      end
  end.

(** [parse_projects_yaml], given what [yaml.safe_load(yaml_text)] did:
    returned a value or raised. *)
Definition parse_projects_yaml (loaded : result value) : result (list dict) :=
  match loaded with
  | Raise _ => Return []
  | Return v =>
      let data := py_or v (VDict ∅) in
      let projects :=
        match data with
        | VDict d => dict_get d "projects"
        | _ => VList []
        end in
      match projects with
      | VList items => normalize_items items
      | _ => Return []
      end
  end.

(** [load_projects_config], given what opening and reading the file did
    and, when it was read, what the YAML parser did with its text. *)
Definition load_projects_config (file : result (result value)) : list dict :=
  match file with
  | Raise _ => []
  | Return loaded =>
      match parse_projects_yaml loaded with
      | Return projects => projects
      | Raise _ => []
      end
  end.

(* ===================================================================== *)
(** ** Merge engine: the body of [generate_index] and of [update_config] *)
(* ===================================================================== *)

(** [public_repos = [r for r in repos if not getattr(r, 'private', False)]] *)
Definition public_repos (repos : list Repo.t) : list Repo.t :=
  List.filter (fun r => negb (Repo.private r)) repos.

(** [existing_map = {p.get('name'): p for p in projects}], read through
    [existing_map.get(repo.name)] only: the entries under [str] keys.
    A later record replaces an earlier one of the same name; a name that is
    a list or a mapping is unhashable and the comprehension raises. *)
Fixpoint existing_map_from (acc : gmap string dict) (projects : list dict)
    : result (gmap string dict) :=
  match projects with
  | [] => Return acc
  | p :: rest =>
      match dict_get p "name" with
      | VStr n => existing_map_from (<[n := p]> acc) rest
      | k => if hashable k then existing_map_from acc rest
             else Raise "TypeError"
      end
  end.

Definition existing_map (projects : list dict) : result (gmap string dict) :=
  existing_map_from ∅ projects.

(** The record under a name in the prior list as the specification words
    it: the last record of that name. *)
Definition named (n : string) (p : dict) : bool :=
  match dict_get p "name" with
  | VStr s => String.eqb s n
  | _ => false
  end.

Fixpoint prior_record (projects : list dict) (n : string) : option dict :=
  match projects with
  | [] => None
  | p :: rest =>
      match prior_record rest n with
      | Some q => Some q
      | None => if named n p then Some p else None
      end
  end.

(** The ten entries both scripts write from the fetched repository. *)
Definition fetched_fields (repo : Repo.t) (classification image : value)
    (base : dict) : dict :=
  <["updated_at" := VStr (default "" (Repo.updated_at repo))]>
  (<["topics" := VList (VStr <$> topics_of repo)]>
  (<["forks" := VInt (Repo.forks_count repo)]>
  (<["stars" := VInt (Repo.stargazers_count repo)]>
  (<["language" := VStr (str_or (Repo.language repo) "Unknown")]>
  (<["image" := image]>
  (<["classification" := classification]>
  (<["url" := VStr (Repo.html_url repo)]>
  (<["description" := VStr (str_or (Repo.description repo) "")]>
  (<["name" := VStr (Repo.name repo)]> base))))))))).

(** One turn of the merge loop of [generate_index]. *)
Definition generate_index_proj (m : gmap string dict) (repo : Repo.t) : dict :=
  let existing_proj := default ∅ (m !! Repo.name repo) in
  let classification :=
    py_or (dict_get existing_proj "classification")
          (VStr (get_auto_classification repo)) in
  let image :=
    py_or (dict_get existing_proj "image")
          (VStr (get_animal_for_project (Repo.name repo))) in
  (* proj = dict(existing_proj); proj.update({...}) *)
  fetched_fields repo classification image existing_proj.

(** One turn of the merge loop of [update_config]. *)
Definition update_config_proj (m : gmap string dict) (repo : Repo.t) : dict :=
  let existing_proj := m !! Repo.name repo in
  let classification :=
    match existing_proj with
    | Some p => if truthy (VDict p) then dict_get p "classification"
                else VStr (get_auto_classification repo)
    | None => VStr (get_auto_classification repo)
    end in
  (* proj = {...}: a new dictionary *)
  fetched_fields repo classification
    (VStr (get_animal_for_project (Repo.name repo))) ∅.

(** [key=lambda x: x.get('updated_at') or ''] *)
Definition sort_key (x : dict) : string :=
  str_of (py_or (dict_get x "updated_at") (VStr "")).

(** [l.sort(key=key, reverse=True)].  The runtime's sort is stable, also
    with [reverse=True]; a stable sort has one possible result, computed
    here by insertion: [x], which stood before everything in [l], goes in
    front of the first element whose key is not greater than its own. *)
Fixpoint insert_desc {A : Type} (key : A -> string) (x : A) (l : list A)
    : list A :=
  match l with
  | [] => [x]
  | y :: l' =>
      if String.leb (key y) (key x) then x :: y :: l'
      else y :: insert_desc key x l'
  end.

Definition sort_desc {A : Type} (key : A -> string) (l : list A) : list A :=
  fold_right (insert_desc key) [] l.

(** [a] may stand before [b] in a list sorted by descending key. *)
Definition key_ge {A : Type} (key : A -> string) (a b : A) : Prop :=
  String.leb (key b) (key a) = true.

(** The elements of [l] whose key is [k], in the order of [l]. *)
Definition with_key {A : Type} (key : A -> string) (k : string) (l : list A)
    : list A :=
  List.filter (fun x => String.eqb (key x) k) l.

(** [new_projects] of [update_config], as written to the config file. *)
Definition update_config (repos : list Repo.t) (projects : list dict)
    : result (list dict) :=
  match existing_map projects with
  | Raise e => Raise e
  | Return m =>
      Return (sort_desc sort_key (update_config_proj m <$> public_repos repos))
  end.

(** [new_projects] of [generate_index] after the merge loop and the sort. *)
Definition generate_index_merge (repos : list Repo.t) (projects : list dict)
    : result (list dict) :=
  match existing_map projects with
  | Raise e => Raise e
  | Return m =>
      Return (sort_desc sort_key (generate_index_proj m <$> public_repos repos))
  end.

(* ===================================================================== *)
(** ** Asset derivation: the local functions of [generate_index] *)
(* ===================================================================== *)

Definition _slug (name : string) : string :=
  lower (str_map (fun c => if isalnum c then c else "-"%char) name).

(** One turn of the loop: [h = (h * 31 + ord(ch)) & 0xFFFFFFFF] *)
Definition color_step (h : Z) (ch : ascii) : Z :=
  Z.land (h * 31 + ord ch) 0xFFFFFFFF.

Definition color_hash (name : string) : Z :=
  fold_left color_step (list_ascii_of_string name) 0%Z.

(** The hash as the specification words it: the base-31 polynomial of the
    character codes, reduced to 32 bits once at the end. *)
Definition poly31 (name : string) : Z :=
  fold_left (fun h ch => h * 31 + ord ch)%Z (list_ascii_of_string name) 0%Z.

Definition _color_from_name (name : string) : string :=
  let hue := (color_hash name mod 360)%Z in
  "hsl(" +:+ str_of_int hue +:+ " 80% 50%)".

(** [limit] is only ever the default, 2; a natural number here.  The
    parts are not empty, so [p[0]] is the one-character string [p[:1]]. *)
Definition _initials (name : string) (limit : nat) : string :=
  let parts :=
    List.filter (fun p => negb (String.eqb p ""))
                (split (replace_char "-" " " name)) in
  match parts with
  | [] => upper (slice_to limit name)
  | [p] => upper (slice_to limit p)
  | _ => upper (join ((slice_to 1) <$> take limit parts))
  end.

(** The separators of the initials as the specification words them:
    hyphens and whitespace. *)
Definition hyphen_or_space (c : ascii) : bool :=
  Ascii.eqb c "-" || isspace c.

(** The logo loop for one project.  [written] tells whether the SVG file
    could be written to the path; [p['logo']] is set either way. *)
Definition set_logo (written : string -> bool) (p : dict) : dict :=
  let safe := _slug (str_of (py_or (dict_get p "name") (VStr "proj"))) in
  let logo_path := "assets/images/" +:+ safe +:+ ".svg" in
  if written logo_path then <["logo" := VStr logo_path]> p
  else <["logo" := VStr ""]> p.

(** [new_projects] of [generate_index], as written to the config file. *)
Definition generate_index (written : string -> bool) (repos : list Repo.t)
    (projects : list dict) : result (list dict) :=
  match generate_index_merge repos projects with
  | Raise e => Raise e
  | Return new_projects => Return (set_logo written <$> new_projects)
  end.

(* ===================================================================== *)
(** ** The rest of the two scripts: fetching, the config file, the report *)
(* ===================================================================== *)

(** The loop of [fetch_github_repos] over the repositories the API
    iterates: [i] is the index [enumerate] gives, [repos] the list built
    so far; [break] once [i >= 99]. *)
Fixpoint fetch_loop (i : nat) (listing repos : list Repo.t) : list Repo.t :=
  match listing with
  | [] => repos
  | repo :: rest =>
      let repos := repos ++ [repo] in
      if (99 <=? i)%nat then repos else fetch_loop (S i) rest repos
  end.

(** [fetch_github_repos], given what the API did: delivered the user and
    the listing of repositories, or raised, which is logged and raised
    again. *)
Definition fetch_github_repos {U : Type} (api : result (U * list Repo.t))
    : result (U * list Repo.t) :=
  match api with
  | Raise e => Raise e
  | Return (user, listing) => Return (user, fetch_loop 0 listing [])
  end.

(** [{'projects': []}] *)
Definition no_projects : value := VDict {[ "projects" := VList [] ]}.

(** [load_existing_config]: [None] when the path does not exist, else what
    opening the file and [yaml.safe_load] did. *)
Definition load_existing_config (file : option (result value)) : value :=
  match file with
  | None => no_projects
  | Some (Raise _) => no_projects
  | Some (Return v) => py_or v no_projects
  end.

(** The comprehension [{p.get('name'): p for p in ...}] over items of any
    kind: [p.get] raises on an item that is not a mapping. *)
Fixpoint existing_map_items (acc : gmap string dict) (items : list value)
    : result (gmap string dict) :=
  match items with
  | [] => Return acc
  | VDict p :: rest =>
      match dict_get p "name" with
      | VStr n => existing_map_items (<[n := p]> acc) rest
      | k => if hashable k then existing_map_items acc rest
             else Raise "TypeError"
      end
  | _ :: rest => Raise "AttributeError"
  end.

(** [existing_map] as both scripts build it from what
    [load_existing_config] returned: [existing.get('projects', [])] needs a
    mapping; the value under [projects] is iterated, so it must be
    iterable; a string yields its characters and a mapping its keys, none
    of which has a [get].  (Mappings have string keys.) *)
Definition existing_map_of (existing : value) : result (gmap string dict) :=
  match existing with
  | VDict d =>
      match dict_get_or d "projects" (VList []) with
      | VList items => existing_map_items ∅ items
      | VStr s => if String.eqb s "" then Return ∅ else Raise "AttributeError"
      | VDict keys =>
          if Nat.eqb (size keys) 0 then Return ∅ else Raise "AttributeError"
      | VNone | VBool _ | VInt _ => Raise "TypeError"
      end
  | _ => Raise "AttributeError"
  end.

(** [new_projects] of [update_config] from the config file and the
    repositories fetched. *)
Definition update_config_from_file (file : option (result value))
    (repos : list Repo.t) : result (list dict) :=
  match existing_map_of (load_existing_config file) with
  | Raise e => Raise e
  | Return m =>
      Return (sort_desc sort_key (update_config_proj m <$> public_repos repos))
  end.

(** [new_projects] of [generate_index] from the config file and the
    repositories fetched. *)
Definition generate_index_from_file (written : string -> bool)
    (file : option (result value)) (repos : list Repo.t)
    : result (list dict) :=
  match existing_map_of (load_existing_config file) with
  | Raise e => Raise e
  | Return m =>
      Return (set_logo written <$>
                sort_desc sort_key
                  (generate_index_proj m <$> public_repos repos))
  end.

(** [v == s] for a string literal [s] *)
Definition eq_str (v : value) (s : string) : bool :=
  match v with
  | VStr t => String.eqb t s
  | _ => false
  end.

(** [len([p for p in new_projects if p.get('classification') == label])],
    the numbers logged as Training and Projects. *)
Definition count_classification (label : string) (new_projects : list dict)
    : nat :=
  length (List.filter (fun p => eq_str (dict_get p "classification") label)
                      new_projects).

(** [cls = p.get('classification') or 'project'] *)
Definition class_of (p : dict) : value :=
  py_or (dict_get p "classification") (VStr "project").

(** The grouping loop of [generate_index]:
    [projects_by_class.setdefault(cls, []).append(p)].  As for
    [existing_map], the groups under string keys are kept; a class that is
    a list or a mapping cannot be a key. *)
Fixpoint projects_by_class_from (acc : gmap string (list dict))
    (new_projects : list dict) : result (gmap string (list dict)) :=
  match new_projects with
  | [] => Return acc
  | p :: rest =>
      match class_of p with
      | VStr cls =>
          projects_by_class_from
            (<[cls := default [] (acc !! cls) ++ [p]]> acc) rest
      | k => if hashable k then projects_by_class_from acc rest
             else Raise "TypeError"
      end
  end.

Definition projects_by_class (new_projects : list dict)
    : result (gmap string (list dict)) :=
  projects_by_class_from ∅ new_projects.

(* ===================================================================== *)
(** ** The logger configuration: [logger.py] *)
(* ===================================================================== *)

Definition DEFAULT_CONFIG : dict :=
  <["file" := VNone]>
  (<["console" := VBool true]> {[ "level" := VStr "INFO" ]}).

(** [{k: v for k, v in data.items() if v is not None}] *)
Definition not_none (v : value) : option value :=
  match v with
  | VNone => None
  | _ => Some v
  end.

(** [_load_config]: [path] as passed, whether the path exists, whether the
    YAML module could be imported, and what reading the file did. *)
Definition _load_config (path : option string) (path_exists yaml_imported : bool)
    (loaded : result value) : dict :=
  if String.eqb (default "" path) "" then DEFAULT_CONFIG
  else if negb path_exists || negb yaml_imported then DEFAULT_CONFIG
  else
    match loaded with
    | Raise _ => DEFAULT_CONFIG
    | Return v =>
        match py_or v (VDict ∅) with
        | VDict data =>
            (* cfg = DEFAULT_CONFIG.copy(); cfg.update(...) *)
            omap not_none data ∪ DEFAULT_CONFIG
        | _ => DEFAULT_CONFIG   (* [data.items()] raises *)
        end
    end.

(* ===================================================================== *)
(** ** Text within the range the model covers *)
(* ===================================================================== *)

(** All characters are code points below 128. *)
Definition ascii_text (s : string) : Prop :=
  Forall (fun c => (N_of_ascii c < 128)%N) (list_ascii_of_string s).

(** The repository with its name, description and topics put through a
    case map. *)
Definition with_case (f : string -> string) (repo : Repo.t) : Repo.t :=
  Repo.mk (f (Repo.name repo)) (f <$> Repo.description repo)
          (Repo.html_url repo) (Repo.language repo)
          (Repo.stargazers_count repo) (Repo.forks_count repo)
          (match Repo.get_topics repo with
           | Return l => Return (f <$> l)
           | Raise e => Raise e
           end)
          (Repo.fork repo) (Repo.private repo) (Repo.updated_at repo).

(** The characters a slug is made of. *)
Definition slug_char (c : ascii) : bool :=
  is_lower c || is_digit c || Ascii.eqb c "-".

(* ===================================================================== *)
(** ** Sample data for the examples *)
(* ===================================================================== *)

(** A public repository that is no fork, with no description, language,
    star or topic. *)
Definition sample_repo (name : string) (updated_at : option string) : Repo.t :=
  Repo.mk name None ("https://github.com/jaygit/" +:+ name) None 0 0
          (Return []) false false updated_at.

(** The names of the records of a list. *)
Definition names (l : list dict) : list value :=
  (fun p => dict_get p "name") <$> l.

(* ===================================================================== *)
(** * Properties *)
(* ===================================================================== *)

(** ** The order on strings used by the sort *)

Section StringOrder.

Lemma ascii_compare_refl (c : ascii) : Ascii.compare c c = Eq.
Proof. unfold Ascii.compare. apply N.compare_refl. Qed.

Lemma string_compare_refl (s : string) : String.compare s s = Eq.
Proof.
  induction s as [|c s IH]; simpl; [reflexivity|].
  now rewrite ascii_compare_refl.
Qed.

Lemma string_leb_refl (s : string) : String.leb s s = true.
Proof. unfold String.leb. now rewrite string_compare_refl. Qed.

(** The empty string is below every string. *)
Lemma string_leb_empty (s : string) : String.leb "" s = true.
Proof. now destruct s. Qed.

Lemma string_leb_empty_inv (s : string) : String.leb s "" = true -> s = "".
Proof. destruct s; [reflexivity | discriminate]. Qed.

Lemma string_compare_lt_trans (a b c : string) :
  String.compare a b = Lt -> String.compare b c = Lt ->
  String.compare a c = Lt.
Proof.
  revert b c.
  induction a as [|x a IH]; intros [|y b] [|z c]; simpl;
    try congruence.
  unfold Ascii.compare.
  destruct (N.compare_spec (N_of_ascii x) (N_of_ascii y)) as [E1|L1|G1];
    try discriminate;
    destruct (N.compare_spec (N_of_ascii y) (N_of_ascii z)) as [E2|L2|G2];
    try discriminate; intros H1 H2.
  - rewrite E1, E2, N.compare_refl. eauto.
  - rewrite E1. now apply N.compare_lt_iff in L2 as ->.
  - rewrite <- E2. now apply N.compare_lt_iff in L1 as ->.
  - assert (N_of_ascii x < N_of_ascii z)%N as L by lia.
    now apply N.compare_lt_iff in L as ->.
Qed.

Lemma string_leb_trans (a b c : string) :
  String.leb a b = true -> String.leb b c = true -> String.leb a c = true.
Proof.
  unfold String.leb.
  destruct (String.compare a b) eqn:Hab; try discriminate;
    destruct (String.compare b c) eqn:Hbc; try discriminate; intros _ _.
  - apply String.compare_eq_iff in Hab, Hbc. subst.
    now rewrite string_compare_refl.
  - apply String.compare_eq_iff in Hab. subst. now rewrite Hbc.
  - apply String.compare_eq_iff in Hbc. subst. now rewrite Hab.
  - now rewrite (string_compare_lt_trans a b c).
Qed.

Lemma string_leb_false (a b : string) :
  String.leb a b = false -> String.leb b a = true.
Proof.
  intros H. destruct (String.leb_total a b) as [E|E]; congruence.
Qed.

End StringOrder.

(** ** The stable descending sort *)

Section StableSort.
Context {A : Type} (key : A -> string).

Lemma insert_desc_perm (x : A) (l : list A) :
  Permutation (x :: l) (insert_desc key x l).
Proof.
  induction l as [|y l IH]; simpl; [reflexivity|].
  destruct (String.leb (key y) (key x)); [reflexivity|].
  rewrite perm_swap. now constructor.
Qed.

Lemma sort_desc_perm (l : list A) : Permutation l (sort_desc key l).
Proof.
  induction l as [|x l IH]; simpl; [constructor|].
  rewrite <- insert_desc_perm. now constructor.
Qed.

Lemma insert_desc_sorted (x : A) (l : list A) :
  StronglySorted (key_ge key) l -> StronglySorted (key_ge key) (insert_desc key x l).
Proof.
  induction 1 as [|y l Hl IH Hy]; simpl.
  - repeat constructor.
  - destruct (String.leb (key y) (key x)) eqn:E.
    + constructor; [now constructor|].
      constructor; [exact E|].
      eapply List.Forall_impl; [|exact Hy].
      intros z Hz. unfold key_ge in *.
      eauto using string_leb_trans.
    + constructor; [exact IH|].
      eapply Permutation_Forall; [apply insert_desc_perm|].
      constructor; [|exact Hy].
      now apply string_leb_false.
Qed.

Lemma sort_desc_sorted (l : list A) : StronglySorted (key_ge key) (sort_desc key l).
Proof.
  induction l as [|x l IH]; simpl; [constructor|].
  now apply insert_desc_sorted.
Qed.

Lemma insert_desc_with_key (k : string) (x : A) (l : list A) :
  with_key key k (insert_desc key x l) = with_key key k (x :: l).
Proof.
  induction l as [|y l IH]; [reflexivity|].
  cbn [insert_desc].
  destruct (String.leb (key y) (key x)) eqn:E; [reflexivity|].
  unfold with_key in *. cbn [List.filter] in *. rewrite IH.
  destruct (String.eqb (key x) k) eqn:Ex; [|reflexivity].
  destruct (String.eqb (key y) k) eqn:Ey; [|reflexivity].
  apply String.eqb_eq in Ex, Ey. rewrite Ex, Ey in E.
  now rewrite string_leb_refl in E.
Qed.

(** Stability: records of equal key keep the order they had. *)
Lemma sort_desc_stable (k : string) (l : list A) :
  with_key key k (sort_desc key l) = with_key key k l.
Proof.
  induction l as [|x l IH]; [reflexivity|].
  cbn [sort_desc fold_right]. rewrite insert_desc_with_key.
  unfold with_key in *. cbn [List.filter].
  fold (sort_desc key l). now rewrite IH.
Qed.

Lemma with_key_head (x : A) (l : list A) :
  with_key key (key x) (x :: l) = x :: with_key key (key x) l.
Proof. unfold with_key. cbn [List.filter]. now rewrite String.eqb_refl. Qed.

Lemma with_key_In (k : string) (x : A) (l : list A) :
  In x (with_key key k l) <-> In x l /\ key x = k.
Proof.
  unfold with_key. rewrite filter_In. now rewrite String.eqb_eq.
Qed.

(** Two lists sorted by descending key that agree key by key are equal:
    a stable sort has exactly one result. *)
Lemma sorted_with_key_unique (l1 l2 : list A) :
  StronglySorted (key_ge key) l1 -> StronglySorted (key_ge key) l2 ->
  (forall k, with_key key k l1 = with_key key k l2) -> l1 = l2.
Proof.
  intros H1. revert l2.
  induction H1 as [|a l1 Hl1 IH Ha]; intros l2 H2 Hk.
  - destruct l2 as [|b l2]; [reflexivity|].
    specialize (Hk (key b)). rewrite with_key_head in Hk. discriminate.
  - destruct H2 as [|b l2 Hl2 Hb].
    { specialize (Hk (key a)). rewrite with_key_head in Hk. discriminate. }
    assert (key a = key b) as Hab.
    { apply String.leb_antisym.
      - assert (In a (with_key key (key a) (b :: l2))) as Hin.
        { rewrite <- Hk, with_key_head. now left. }
        apply with_key_In in Hin as [[Heq|Hin] _].
        + subst. apply string_leb_refl.
        + rewrite List.Forall_forall in Hb. exact (Hb a Hin).
      - assert (In b (with_key key (key b) (a :: l1))) as Hin.
        { rewrite Hk, with_key_head. now left. }
        apply with_key_In in Hin as [[Heq|Hin] _].
        + subst. apply string_leb_refl.
        + rewrite List.Forall_forall in Ha. exact (Ha b Hin). }
    assert (a = b) as ->.
    { specialize (Hk (key a)). rewrite with_key_head in Hk.
      rewrite Hab, with_key_head in Hk. congruence. }
    f_equal. apply IH; [exact Hl2|].
    intros k. specialize (Hk k). unfold with_key in *.
    cbn [List.filter] in Hk.
    destruct (String.eqb (key b) k); congruence.
Qed.

Lemma sort_desc_unique (l l' : list A) :
  StronglySorted (key_ge key) l' ->
  (forall k, with_key key k l' = with_key key k l) ->
  l' = sort_desc key l.
Proof.
  intros Hs Hk. apply sorted_with_key_unique; [exact Hs| |].
  - apply sort_desc_sorted.
  - intros k. now rewrite sort_desc_stable.
Qed.

(** In a list sorted by descending key, whatever follows a record with
    the empty key has the empty key too. *)
Lemma sorted_empty_key_last (l1 l2 : list A) (x : A) :
  StronglySorted (key_ge key) (l1 ++ x :: l2) -> key x = "" ->
  Forall (fun y => key y = "") l2.
Proof.
  intros Hs Hx. induction l1 as [|a l1 IH]; simpl in Hs.
  - apply StronglySorted_inv in Hs as [_ Hall].
    eapply List.Forall_impl; [|exact Hall].
    intros y Hy. unfold key_ge in Hy. rewrite Hx in Hy.
    now apply string_leb_empty_inv.
  - apply StronglySorted_inv in Hs as [Hs _]. auto.
Qed.

End StableSort.

(** ** Substring test and case maps *)

Section Strings.

Lemma append_cons (c : ascii) (a b : string) :
  String c a +:+ b = String c (a +:+ b).
Proof. reflexivity. Qed.



Lemma str_map_length (f : ascii -> ascii) (s : string) :
  String.length (str_map f s) = String.length s.
Proof. induction s; simpl; congruence. Qed.

Lemma str_map_map (f g : ascii -> ascii) (s : string) :
  str_map f (str_map g s) = str_map (fun c => f (g c)) s.
Proof. induction s; simpl; congruence. Qed.

Lemma str_map_ext (f g : ascii -> ascii) (s : string) :
  (forall c, f c = g c) -> str_map f s = str_map g s.
Proof. intros H. induction s; simpl; congruence. Qed.

Lemma str_map_get (f : ascii -> ascii) (s : string) (i : nat) :
  String.get i (str_map f s) = f <$> String.get i s.
Proof.
  revert i. induction s as [|c s IH]; intros [|i]; simpl; auto.
Qed.




Lemma ascii_text_cons (c : ascii) (s : string) :
  ascii_text (String c s) <-> (N_of_ascii c < 128)%N /\ ascii_text s.
Proof. unfold ascii_text. cbn. apply List.Forall_cons_iff. Qed.

Lemma is_byte_ascii (n : N) (c : ascii) :
  (N_of_ascii c < 128)%N -> (128 <= n)%N -> is_byte n c = false.
Proof. intros Hc Hn. unfold is_byte. apply N.eqb_neq. lia. Qed.

(** Text within ASCII has neither of the two characters. *)
Lemma lower_beyond_ascii_ascii (s : string) :
  ascii_text s -> lower_beyond_ascii s = s.
Proof.
  induction s as [|c s1 IH]; [reflexivity|].
  rewrite ascii_text_cons. intros [Hc Hs]. specialize (IH Hs).
  cbn [lower_beyond_ascii]. destruct s1 as [|d s2]; [reflexivity|].
  rewrite (is_byte_ascii 196 c Hc) by lia. cbn [andb].
  destruct s2 as [|e s3]; [now rewrite IH|].
  rewrite (is_byte_ascii 226 c Hc) by lia. cbn [andb]. now rewrite IH.
Qed.

Lemma lower_ascii (s : string) :
  ascii_text s -> lower s = str_map lower_char s.
Proof. intros H. unfold lower. now rewrite lower_beyond_ascii_ascii. Qed.

Lemma ascii_text_str_map (f : ascii -> ascii) (s : string) :
  (forall c, (N_of_ascii c < 128)%N -> (N_of_ascii (f c) < 128)%N) ->
  ascii_text s -> ascii_text (str_map f s).
Proof.
  intros Hf. induction s as [|c s IH]; [intros _; constructor|].
  cbn [str_map]. rewrite !ascii_text_cons. intros [Hc Hs]. auto.
Qed.

Lemma slug_source_ascii (name : string) :
  ascii_text (str_map (fun c => if isalnum c then c else "-"%char) name).
Proof.
  induction name as [|c s IH]; [constructor|].
  cbn [str_map]. apply ascii_text_cons. split; [|exact IH].
  destruct c as [[] [] [] [] [] [] [] []]; reflexivity.
Qed.


End Strings.

(** ** The two rolling hashes *)

Section Hashes.
Local Open Scope Z_scope.

Lemma ord_range (c : ascii) : 0 <= ord c < 256.
Proof.
  unfold ord. pose proof (N_ascii_bounded c). lia.
Qed.

Lemma mask32_mod (x : Z) : Z.land x 0xFFFFFFFF = x mod 2 ^ 32.
Proof. change 0xFFFFFFFF with (Z.ones 32). now rewrite Z.land_ones. Qed.

(** [(h << 5) - h] is [31 * h]: both loops take the same step. *)
Lemma animal_step_color_step (h : Z) (ch : ascii) :
  animal_step h ch = color_step h ch.
Proof.
  unfold animal_step, color_step. rewrite Z.shiftl_mul_pow2 by lia.
  f_equal. lia.
Qed.

Lemma animal_hash_color_hash (name : string) :
  animal_hash name = color_hash name.
Proof.
  unfold animal_hash, color_hash.
  generalize 0. induction (list_ascii_of_string name) as [|c l IH];
    intros h; simpl; [reflexivity|].
  now rewrite animal_step_color_step.
Qed.

Lemma color_fold_range (l : list ascii) (h : Z) :
  0 <= h < 2 ^ 32 -> 0 <= fold_left color_step l h < 2 ^ 32.
Proof.
  revert h. induction l as [|c l IH]; intros h Hh; simpl; [exact Hh|].
  apply IH. unfold color_step. rewrite mask32_mod.
  apply Z.mod_pos_bound. lia.
Qed.

Lemma color_hash_range (name : string) : 0 <= color_hash name < 2 ^ 32.
Proof. apply color_fold_range. lia. Qed.

Lemma animal_hash_range (name : string) : 0 <= animal_hash name < 2 ^ 32.
Proof. rewrite animal_hash_color_hash. apply color_hash_range. Qed.

Lemma poly_fold_mod (l : list ascii) (h h' : Z) :
  h mod 2 ^ 32 = h' mod 2 ^ 32 ->
  fold_left (fun h ch => h * 31 + ord ch) l h mod 2 ^ 32 =
  fold_left (fun h ch => h * 31 + ord ch) l h' mod 2 ^ 32.
Proof.
  revert h h'. induction l as [|c l IH]; intros h h' E; simpl; [exact E|].
  apply IH.
  rewrite (Z.add_mod (h * 31)), (Z.add_mod (h' * 31)) by lia.
  rewrite (Z.mul_mod h), (Z.mul_mod h') by lia.
  now rewrite E.
Qed.

Lemma color_fold_poly (l : list ascii) (h : Z) :
  0 <= h < 2 ^ 32 ->
  fold_left color_step l h =
  fold_left (fun h ch => h * 31 + ord ch) l h mod 2 ^ 32.
Proof.
  revert h. induction l as [|c l IH]; intros h Hh; simpl.
  - now rewrite Z.mod_small.
  - rewrite IH.
    + apply poly_fold_mod. unfold color_step. rewrite mask32_mod.
      now rewrite Z.mod_mod by lia.
    + unfold color_step. rewrite mask32_mod. apply Z.mod_pos_bound. lia.
Qed.

(** Masking at every turn or once at the end gives the same hash. *)
Lemma color_hash_poly31 (name : string) :
  color_hash name = poly31 name mod 2 ^ 32.
Proof. apply color_fold_poly. lia. Qed.

Lemma palette_index_range (n : nat) (name : string) :
  (0 < n)%nat -> 0 <= palette_index n name < Z.of_nat n.
Proof. intros Hn. unfold palette_index. apply Z.mod_pos_bound. lia. Qed.

Lemma pick_In (palette : list string) (name : string) :
  palette <> [] -> In (pick palette name) palette.
Proof.
  intros Hne. unfold pick. apply nth_In.
  assert (0 < length palette)%nat as Hlen
    by (destruct palette; [congruence | simpl; lia]).
  pose proof (palette_index_range (length palette) name Hlen). lia.
Qed.

Lemma pick_empty_name (palette : list string) :
  pick palette "" = nth 0 palette "".
Proof.
  unfold pick, palette_index. change (animal_hash "") with 0.
  now rewrite Zmod_0_l.
Qed.

End Hashes.

(** ** Splitting into parts *)

Section Split.

Lemma append_empty_r (s : string) : s +:+ "" = s.
Proof. induction s as [|c s IH]; [reflexivity|]. now rewrite append_cons, IH. Qed.

Lemma append_snoc_nonempty (s : string) (c : ascii) :
  String.eqb (s +:+ String c "") "" = false.
Proof. now destruct s. Qed.

(** No part is empty, so the [if p] filter of [_initials] keeps all. *)
Lemma split_by_nonempty (sep : ascii -> bool) (cur s : string) :
  Forall (fun p => p <> "") (split_by sep cur s).
Proof.
  revert cur. induction s as [|c s IH]; intros cur; simpl.
  - destruct (String.eqb_spec cur ""); repeat constructor; auto.
  - destruct (sep c); [|apply IH].
    destruct (String.eqb_spec cur ""); [apply IH|].
    constructor; [assumption | apply IH].
Qed.

Lemma append_assoc (a b c : string) : (a +:+ b) +:+ c = a +:+ (b +:+ c).
Proof.
  induction a as [|x a IH]; [reflexivity|].
  now rewrite !append_cons, IH.
Qed.

(** The parts, put together again, are the text without its separators:
    nothing is lost and nothing is reordered. *)
Lemma join_split_by (sep : ascii -> bool) (cur s : string) :
  join (split_by sep cur s) = cur +:+ remove_seps sep s.
Proof.
  revert cur. induction s as [|c s IH]; intros cur;
    cbn [split_by remove_seps].
  - destruct (String.eqb_spec cur "") as [->|]; [reflexivity|].
    reflexivity.
  - destruct (sep c).
    + destruct (String.eqb_spec cur "") as [->|].
      * apply IH.
      * unfold join in *. cbn [fold_right]. now rewrite IH.
    + rewrite IH, append_assoc. reflexivity.
Qed.

Lemma remove_seps_app (sep : ascii -> bool) (a b : string) :
  remove_seps sep (a +:+ b) = remove_seps sep a +:+ remove_seps sep b.
Proof.
  induction a as [|x a IH]; [reflexivity|].
  rewrite append_cons. cbn [remove_seps].
  destruct (sep x); [exact IH|]. now rewrite append_cons, IH.
Qed.

(** No part holds a separator. *)
Lemma split_by_no_sep (sep : ascii -> bool) (cur s : string) :
  remove_seps sep cur = cur ->
  Forall (fun p => remove_seps sep p = p) (split_by sep cur s).
Proof.
  revert cur. induction s as [|c s IH]; intros cur Hcur; cbn [split_by].
  - destruct (String.eqb cur ""); repeat constructor; auto.
  - destruct (sep c) eqn:E.
    + destruct (String.eqb cur ""); [now apply IH|].
      constructor; [exact Hcur | now apply IH].
    + apply IH. rewrite remove_seps_app, Hcur.
      cbn [remove_seps]. now rewrite E.
Qed.

Lemma filter_nonempty_id (l : list string) :
  Forall (fun p => p <> "") l ->
  List.filter (fun p => negb (String.eqb p "")) l = l.
Proof.
  induction 1 as [|p l Hp _ IH]; simpl; [reflexivity|].
  destruct (String.eqb_spec p ""); [contradiction|]. simpl. now rewrite IH.
Qed.

Lemma isspace_space : isspace " " = true.
Proof. reflexivity. Qed.

(** Replacing hyphens by spaces and splitting on whitespace is splitting
    on hyphens and whitespace. *)
Lemma split_replace_hyphen (cur s : string) :
  split_by isspace cur (replace_char "-" " " s) =
  split_by hyphen_or_space cur s.
Proof.
  revert cur. induction s as [|c s IH]; intros cur; [reflexivity|].
  unfold replace_char in *. cbn [str_map split_by]. unfold hyphen_or_space.
  destruct (Ascii.eqb_spec c "-") as [->|Hc].
  - rewrite isspace_space. cbn [orb]. now rewrite IH.
  - cbn [orb]. destruct (isspace c); now rewrite !IH.
Qed.

Lemma initials_parts (name : string) (limit : nat) :
  _initials name limit =
  match split_by hyphen_or_space "" name with
  | [] => upper (slice_to limit name)
  | [p] => upper (slice_to limit p)
  | parts => upper (join (slice_to 1 <$> take limit parts))
  end.
Proof.
  unfold _initials, split.
  rewrite filter_nonempty_id by apply split_by_nonempty.
  rewrite split_replace_hyphen.
  now destruct (split_by hyphen_or_space "" name) as [|p [|q parts]].
Qed.

Lemma slug_charwise (name : string) :
  _slug name =
  str_map (fun c => if isalnum c then lower_char c else "-"%char) name.
Proof.
  unfold _slug. rewrite lower_ascii by apply slug_source_ascii.
  rewrite str_map_map. apply str_map_ext.
  intros c. now destruct (isalnum c).
Qed.

End Split.

(** ** Classification *)

Section Classification.




End Classification.

(** ** Normalisation *)

Section Normalisation.

Lemma normalize_items_dicts (ps : list dict) :
  normalize_items (VDict <$> ps) = Return (normalized <$> ps).
Proof.
  induction ps as [|p ps IH]; [reflexivity|].
  cbn [fmap list_fmap normalize_items normalize_item] in *.
  now rewrite IH.
Qed.

(** A list holding an item that is not a mapping makes the loop raise. *)
Lemma normalize_items_raises (items : list value) :
  Exists (fun p => forall d, p <> VDict d) items ->
  normalize_items items = Raise "AttributeError".
Proof.
  induction items as [|p items IH]; intros H; [inversion H|].
  cbn [normalize_items].
  destruct p; try reflexivity.
  cbn [normalize_item].
  inversion H as [? ? Hp|? ? Hrest]; subst.
  - now contradiction (Hp d).
  - now rewrite (IH Hrest).
Qed.

Lemma parse_projects_yaml_cases (loaded : result value) :
  parse_projects_yaml loaded =
  match loaded with
  | Return (VDict d) =>
      match d !! "projects" with
      | Some (VList items) => normalize_items items
      | _ => Return []
      end
  | _ => Return []
  end.
Proof.
  destruct loaded as [v|e]; [|reflexivity].
  unfold parse_projects_yaml, py_or.
  destruct v; cbn [truthy]; try reflexivity.
  - now destruct b.
  - now destruct (negb (z =? 0)%Z).
  - now destruct (negb (String.eqb s "")).
  - now destruct (negb (Nat.eqb (length l) 0)).
  - destruct (Nat.eqb (size d) 0) eqn:E; cbn [negb].
    + apply Nat.eqb_eq, map_size_empty_iff in E. subst d.
      unfold dict_get. now rewrite !lookup_empty.
    + unfold dict_get. now destruct (d !! "projects") as [[]|].
Qed.

Lemma normalized_dom (p : dict) :
  dom (normalized p) = list_to_set project_keys.
Proof.
  unfold normalized. rewrite !dom_insert_L, dom_empty_L.
  unfold project_keys. cbn [list_to_set]. set_solver.
Qed.

End Normalisation.

(** ** The index of prior records *)

Section Index.

Lemma existing_map_from_lookup (projects : list dict)
    (acc m : gmap string dict) (n : string) :
  existing_map_from acc projects = Return m ->
  m !! n = match prior_record projects n with
           | Some q => Some q
           | None => acc !! n
           end.
Proof.
  revert acc. induction projects as [|p rest IH]; intros acc H.
  - injection H as <-. reflexivity.
  - cbn [existing_map_from prior_record] in *. unfold named.
    destruct (dict_get p "name") as [| | |s| |] eqn:E;
      try (apply IH in H; rewrite H;
           now destruct (prior_record rest n));
      try discriminate.
    apply IH in H. rewrite H.
    destruct (prior_record rest n); [reflexivity|].
    destruct (String.eqb_spec s n) as [->|Hne].
    + apply lookup_insert_eq.
    + now apply lookup_insert_ne.
Qed.

(** Last write wins: the index holds, under each name, the last prior
    record of that name. *)
Lemma existing_map_lookup (projects : list dict) (m : gmap string dict)
    (n : string) :
  existing_map projects = Return m -> m !! n = prior_record projects n.
Proof.
  intros H. rewrite (existing_map_from_lookup _ _ _ n H).
  now destruct (prior_record projects n).
Qed.

(** The index is built whenever every prior name can be a key; names
    that are strings, numbers, booleans or absent all can. *)
Lemma existing_map_from_returns (projects : list dict)
    (acc : gmap string dict) :
  Forall (fun p => hashable (dict_get p "name") = true) projects ->
  exists m, existing_map_from acc projects = Return m.
Proof.
  intros H. revert acc.
  induction H as [|p rest Hp _ IH]; intros acc; [now exists acc|].
  cbn [existing_map_from].
  destruct (dict_get p "name"); try apply IH; discriminate.
Qed.

Lemma existing_map_returns (projects : list dict) :
  Forall (fun p => hashable (dict_get p "name") = true) projects ->
  exists m, existing_map projects = Return m.
Proof. apply existing_map_from_returns. Qed.

Lemma prior_record_named (projects : list dict) (n : string) (p : dict) :
  prior_record projects n = Some p ->
  In p projects /\ p !! "name" = Some (VStr n).
Proof.
  induction projects as [|q rest IH]; [discriminate|].
  cbn [prior_record].
  destruct (prior_record rest n) as [q'|].
  - intros [= ->]. destruct IH as [Hin Hn]; [reflexivity|].
    split; [now right | exact Hn].
  - unfold named, dict_get.
    destruct (q !! "name") as [[| | |s| |]|] eqn:E; try discriminate.
    simpl. destruct (String.eqb_spec s n) as [->|]; [|discriminate].
    intros [= ->]. split; [now left | exact E].
Qed.

End Index.

(** ** One merged record *)

Section MergedRecord.
Context (repo : Repo.t) (classification image : value) (base : dict).

Local Ltac field :=
  unfold fetched_fields;
  repeat (rewrite lookup_insert_ne by discriminate);
  apply lookup_insert_eq.

Lemma fetched_name :
  fetched_fields repo classification image base !! "name"
  = Some (VStr (Repo.name repo)).
Proof. field. Qed.

Lemma fetched_classification :
  fetched_fields repo classification image base !! "classification"
  = Some classification.
Proof. field. Qed.

Lemma fetched_image :
  fetched_fields repo classification image base !! "image" = Some image.
Proof. field. Qed.

Lemma fetched_stars :
  fetched_fields repo classification image base !! "stars"
  = Some (VInt (Repo.stargazers_count repo)).
Proof. field. Qed.

Lemma fetched_updated_at :
  fetched_fields repo classification image base !! "updated_at"
  = Some (VStr (default "" (Repo.updated_at repo))).
Proof. field. Qed.

(** Only the ten standard keys are written. *)
Lemma fetched_other (k : string) :
  ~ In k project_keys ->
  fetched_fields repo classification image base !! k = base !! k.
Proof.
  intros Hk. unfold fetched_fields.
  repeat (rewrite lookup_insert_ne;
          [|intros <-; apply Hk; unfold project_keys; simpl; tauto]).
  reflexivity.
Qed.

Lemma fetched_sort_key :
  sort_key (fetched_fields repo classification image base)
  = default "" (Repo.updated_at repo).
Proof.
  unfold sort_key, dict_get. rewrite fetched_updated_at.
  generalize (default "" (Repo.updated_at repo)). intros u.
  unfold py_or. simpl.
  destruct (String.eqb u "") eqn:E; [|reflexivity].
  apply String.eqb_eq in E. now subst.
Qed.

End MergedRecord.

(** ** Dictionary reads and [or] *)

Section Reads.

Lemma dict_get_Some (d : dict) (k : string) (v : value) :
  d !! k = Some v -> dict_get d k = v.
Proof. unfold dict_get. now intros ->. Qed.

Lemma dict_get_None (d : dict) (k : string) :
  d !! k = None -> dict_get d k = VNone.
Proof. unfold dict_get. now intros ->. Qed.

Lemma dict_get_empty (k : string) : dict_get ∅ k = VNone.
Proof. apply dict_get_None, lookup_empty. Qed.

Lemma py_or_truthy (a b : value) : truthy a = true -> py_or a b = a.
Proof. unfold py_or. now intros ->. Qed.

Lemma py_or_falsy (a b : value) : truthy a = false -> py_or a b = b.
Proof. unfold py_or. now intros ->. Qed.

Lemma truthy_VStr (s : string) : truthy (VStr s) = true <-> s <> "".
Proof.
  cbn [truthy]. destruct (String.eqb_spec s ""); split; auto; discriminate.
Qed.

End Reads.

(** ** What each script makes of one fetched repository *)

Section Proj.
Context (m : gmap string dict) (repo : Repo.t).

(** [generate_index]: a prior value that is present and truthy stays. *)
Lemma generate_index_classification_sticky (p : dict) (v : value) :
  m !! Repo.name repo = Some p -> p !! "classification" = Some v ->
  truthy v = true ->
  generate_index_proj m repo !! "classification" = Some v.
Proof.
  intros Hp Hv Ht. unfold generate_index_proj.
  rewrite fetched_classification, Hp. cbn [default from_option id].
  now rewrite (dict_get_Some _ _ _ Hv), py_or_truthy.
Qed.

Lemma generate_index_classification_fresh :
  (m !! Repo.name repo = None \/
   exists p, m !! Repo.name repo = Some p /\
     (p !! "classification" = None \/
      exists v, p !! "classification" = Some v /\ truthy v = false)) ->
  generate_index_proj m repo !! "classification"
  = Some (VStr (get_auto_classification repo)).
Proof.
  intros H. unfold generate_index_proj.
  rewrite fetched_classification.
  destruct H as [->|[p [-> [Hn|[v [Hv Ht]]]]]]; cbn [default from_option id].
  - now rewrite dict_get_empty.
  - now rewrite (dict_get_None _ _ Hn).
  - now rewrite (dict_get_Some _ _ _ Hv), py_or_falsy.
Qed.

Lemma generate_index_image_sticky (p : dict) (v : value) :
  m !! Repo.name repo = Some p -> p !! "image" = Some v ->
  truthy v = true ->
  generate_index_proj m repo !! "image" = Some v.
Proof.
  intros Hp Hv Ht. unfold generate_index_proj.
  rewrite fetched_image, Hp. cbn [default from_option id].
  now rewrite (dict_get_Some _ _ _ Hv), py_or_truthy.
Qed.

Lemma generate_index_image_fresh :
  (m !! Repo.name repo = None \/
   exists p, m !! Repo.name repo = Some p /\
     (p !! "image" = None \/
      exists v, p !! "image" = Some v /\ truthy v = false)) ->
  generate_index_proj m repo !! "image"
  = Some (VStr (get_animal_for_project (Repo.name repo))).
Proof.
  intros H. unfold generate_index_proj.
  rewrite fetched_image.
  destruct H as [->|[p [-> [Hn|[v [Hv Ht]]]]]]; cbn [default from_option id].
  - now rewrite dict_get_empty.
  - now rewrite (dict_get_None _ _ Hn).
  - now rewrite (dict_get_Some _ _ _ Hv), py_or_falsy.
Qed.

(** [generate_index]: every other entry of the prior record survives. *)
Lemma generate_index_overlay (p : dict) (k : string) :
  m !! Repo.name repo = Some p -> ~ In k project_keys ->
  generate_index_proj m repo !! k = p !! k.
Proof.
  intros Hp Hk. unfold generate_index_proj.
  rewrite fetched_other by exact Hk. now rewrite Hp.
Qed.

(** [update_config]: the record has the ten standard keys and no other,
    and its image is always computed from the name. *)
Lemma update_config_no_overlay (k : string) :
  ~ In k project_keys -> update_config_proj m repo !! k = None.
Proof.
  intros Hk. unfold update_config_proj.
  rewrite fetched_other by exact Hk. apply lookup_empty.
Qed.

Lemma update_config_image :
  update_config_proj m repo !! "image"
  = Some (VStr (get_animal_for_project (Repo.name repo))).
Proof. unfold update_config_proj. apply fetched_image. Qed.

(** [update_config]: with a prior record, its classification entry is
    taken as it is, also when it is absent or empty. *)
Lemma update_config_classification_prior (p : dict) :
  m !! Repo.name repo = Some p -> p !! "name" = Some (VStr (Repo.name repo)) ->
  update_config_proj m repo !! "classification"
  = Some (default VNone (p !! "classification")).
Proof.
  intros Hp Hn. unfold update_config_proj.
  rewrite fetched_classification, Hp. cbn [truthy].
  destruct (Nat.eqb (size p) 0) eqn:E; [|reflexivity].
  apply Nat.eqb_eq, map_size_empty_iff in E. subst p.
  now rewrite lookup_empty in Hn.
Qed.

Lemma update_config_classification_new :
  m !! Repo.name repo = None ->
  update_config_proj m repo !! "classification"
  = Some (VStr (get_auto_classification repo)).
Proof.
  intros Hp. unfold update_config_proj.
  now rewrite fetched_classification, Hp.
Qed.

Lemma generate_index_proj_name :
  generate_index_proj m repo !! "name" = Some (VStr (Repo.name repo)).
Proof. apply fetched_name. Qed.

Lemma update_config_proj_name :
  update_config_proj m repo !! "name" = Some (VStr (Repo.name repo)).
Proof. apply fetched_name. Qed.

Lemma generate_index_proj_key :
  sort_key (generate_index_proj m repo) = default "" (Repo.updated_at repo).
Proof. apply fetched_sort_key. Qed.

Lemma update_config_proj_key :
  sort_key (update_config_proj m repo) = default "" (Repo.updated_at repo).
Proof. apply fetched_sort_key. Qed.

End Proj.

(** ** The merged list *)

Section MergedList.

Lemma sort_desc_In {A : Type} (key : A -> string) (l : list A) (x : A) :
  In x (sort_desc key l) <-> In x l.
Proof.
  split; apply Permutation_in;
    [symmetry|]; apply sort_desc_perm.
Qed.

Lemma set_logo_sort_key (written : string -> bool) (p : dict) :
  sort_key (set_logo written p) = sort_key p.
Proof.
  unfold set_logo, sort_key, dict_get.
  destruct (written _); now rewrite lookup_insert_ne by discriminate.
Qed.

Lemma set_logo_other (written : string -> bool) (p : dict) (k : string) :
  k <> "logo" -> set_logo written p !! k = p !! k.
Proof.
  intros Hk. unfold set_logo.
  destruct (written _); now rewrite lookup_insert_ne by congruence.
Qed.

Lemma generate_index_returns (written : string -> bool)
    (repos : list Repo.t) (projects : list dict) (m : gmap string dict) :
  existing_map projects = Return m ->
  generate_index_merge repos projects
    = Return (sort_desc sort_key
                (generate_index_proj m <$> public_repos repos)) /\
  generate_index written repos projects
    = Return (set_logo written <$>
                sort_desc sort_key
                  (generate_index_proj m <$> public_repos repos)) /\
  update_config repos projects
    = Return (sort_desc sort_key
                (update_config_proj m <$> public_repos repos)).
Proof.
  intros H. unfold generate_index, generate_index_merge, update_config.
  now rewrite H.
Qed.

Lemma public_repos_In (repos : list Repo.t) (r : Repo.t) :
  In r (public_repos repos) <-> In r repos /\ Repo.private r = false.
Proof.
  unfold public_repos. rewrite filter_In.
  now destruct (Repo.private r).
Qed.

End MergedList.

(** ** Names in the merged list *)

Section Names.
Context (m : gmap string dict).

Lemma names_generate_index (rs : list Repo.t) :
  names (generate_index_proj m <$> rs) = (fun r => VStr (Repo.name r)) <$> rs.
Proof.
  unfold names. rewrite <- list_fmap_compose. apply list_fmap_ext.
  intros i r _. cbn. apply dict_get_Some, generate_index_proj_name.
Qed.

Lemma names_update_config (rs : list Repo.t) :
  names (update_config_proj m <$> rs) = (fun r => VStr (Repo.name r)) <$> rs.
Proof.
  unfold names. rewrite <- list_fmap_compose. apply list_fmap_ext.
  intros i r _. cbn. apply dict_get_Some, update_config_proj_name.
Qed.

Lemma names_sort_desc (l : list dict) :
  Permutation (names (sort_desc sort_key l)) (names l).
Proof.
  unfold names. apply Permutation_map. symmetry. apply sort_desc_perm.
Qed.

Lemma names_set_logo (written : string -> bool) (l : list dict) :
  names (set_logo written <$> l) = names l.
Proof.
  unfold names. rewrite <- list_fmap_compose. apply list_fmap_ext.
  intros i p _. cbn. unfold dict_get.
  now rewrite set_logo_other by discriminate.
Qed.

Lemma NoDup_VStr (l : list string) : NoDup l -> NoDup (VStr <$> l).
Proof.
  intros H. apply NoDup_fmap_2; [|exact H]. intros a b [= E]. exact E.
Qed.

End Names.

(* ===================================================================== *)
(** * The claims *)
(* ===================================================================== *)

(** C1.  [update_config] does not do what the claim says, and what
    [generate_index] does, for a prior record without a classification.
    Repository "x" classifies as "project".  With the prior record
    [{name: x}], [update_config] writes the classification [None]; with
    [{name: x, classification: ''}] it writes the empty string; on the
    same input [generate_index] writes "project". *)
Theorem update_config_classification_not_recomputed :
  get_auto_classification (sample_repo "x" (Some "2024-01-01")) = "project" /\
  (exists proj,
     update_config [sample_repo "x" (Some "2024-01-01")]
                   [ {[ "name" := VStr "x" ]} ] = Return [proj] /\
     proj !! "classification" = Some VNone) /\
  (exists proj,
     update_config [sample_repo "x" (Some "2024-01-01")]
                   [ <["classification" := VStr ""]> {[ "name" := VStr "x" ]} ]
       = Return [proj] /\
     proj !! "classification" = Some (VStr "")) /\
  (exists proj,
     generate_index_merge [sample_repo "x" (Some "2024-01-01")]
                          [ {[ "name" := VStr "x" ]} ] = Return [proj] /\
     proj !! "classification" = Some (VStr "project")) /\
  (exists proj,
     generate_index_merge [sample_repo "x" (Some "2024-01-01")]
                   [ <["classification" := VStr ""]> {[ "name" := VStr "x" ]} ]
       = Return [proj] /\
     proj !! "classification" = Some (VStr "project")).
Proof.
  split; [reflexivity|].
  repeat split; eexists; (split; [reflexivity|]); reflexivity.
Qed.

(** C2.  [update_config] does not keep a prior image, which
    [generate_index] does.  With the prior record
    [{name: x, classification: project, image: 🚀}] and repository "x"
    fetched, [update_config] writes the image picked for "x", 🐾, while
    [generate_index] keeps 🚀. *)
Theorem update_config_image_overwritten :
  get_animal_for_project "x" = "🐾" /\
  (exists proj,
     update_config [sample_repo "x" (Some "2024-01-01")]
       [ <["image" := VStr "🚀"]>
           (<["classification" := VStr "project"]> {[ "name" := VStr "x" ]}) ]
       = Return [proj] /\
     proj !! "image" = Some (VStr "🐾") /\
     proj !! "image" <> Some (VStr "🚀")) /\
  (exists proj,
     generate_index_merge [sample_repo "x" (Some "2024-01-01")]
       [ <["image" := VStr "🚀"]>
           (<["classification" := VStr "project"]> {[ "name" := VStr "x" ]}) ]
       = Return [proj] /\
     proj !! "image" = Some (VStr "🚀")).
Proof.
  split; [reflexivity|].
  split; eexists; (split; [reflexivity|]).
  - split; [reflexivity | discriminate].
  - reflexivity.
Qed.

(** C3.  [update_config] is no overlay: it builds a new record, which
    [generate_index] does not.  With the prior record
    [{name: x, classification: project, notes: keep}] and repository "x"
    fetched, the record of [update_config] has no [notes] entry, the
    record of [generate_index] still has it. *)
Theorem update_config_custom_field_dropped :
  ~ In "notes" project_keys /\
  (exists proj,
     update_config [sample_repo "x" (Some "2024-01-01")]
       [ <["notes" := VStr "keep"]>
           (<["classification" := VStr "project"]> {[ "name" := VStr "x" ]}) ]
       = Return [proj] /\
     proj !! "notes" = None) /\
  (exists proj,
     generate_index_merge [sample_repo "x" (Some "2024-01-01")]
       [ <["notes" := VStr "keep"]>
           (<["classification" := VStr "project"]> {[ "name" := VStr "x" ]}) ]
       = Return [proj] /\
     proj !! "notes" = Some (VStr "keep")).
Proof.
  split.
  - unfold project_keys. simpl. intros H.
    repeat (destruct H as [H|H]; [discriminate|]). exact H.
  - split; eexists; (split; [reflexivity|]); reflexivity.
Qed.

(** The claim C4 fails on the code in three ways, each at an explicit
    document.  (1) A field of the wrong type is kept, not replaced by its
    default: [stars: "many"] stays the string "many".  (2) An absent
    [name] becomes [None], none of the defaults.  (3) An item that is not
    a mapping makes [parse_projects_yaml] raise, and
    [load_projects_config] then returns no record at all, dropping the
    well-formed record beside it. *)
Lemma normalize_defaults_fail :
  (exists proj,
     parse_projects_yaml
       (Return (VDict {[ "projects" :=
          VList [VDict (<["stars" := VStr "many"]> {[ "name" := VStr "x" ]})] ]}))
     = Return [proj] /\
     proj !! "stars" = Some (VStr "many") /\
     proj !! "stars" <> Some (VInt 0)) /\
  (exists proj,
     parse_projects_yaml
       (Return (VDict {[ "projects" := VList [VDict {[ "stars" := VInt 3 ]}] ]}))
     = Return [proj] /\
     proj !! "name" = Some VNone /\
     proj !! "name" <> Some (VStr "")) /\
  (parse_projects_yaml
     (Return (VDict {[ "projects" :=
        VList [VDict {[ "name" := VStr "x" ]}; VStr "y"] ]}))
   = Raise "AttributeError" /\
   load_projects_config
     (Return (Return (VDict {[ "projects" :=
        VList [VDict {[ "name" := VStr "x" ]}; VStr "y"] ]})))
   = []).
Proof.
  split; [|split].
  - eexists. split; [|split].
    + rewrite parse_projects_yaml_cases, lookup_singleton_eq. reflexivity.
    + reflexivity.
    + discriminate.
  - eexists. split; [|split].
    + rewrite parse_projects_yaml_cases, lookup_singleton_eq. reflexivity.
    + reflexivity.
    + discriminate.
  - assert (parse_projects_yaml
     (Return (VDict {[ "projects" :=
        VList [VDict {[ "name" := VStr "x" ]}; VStr "y"] ]}))
     = Raise "AttributeError") as H.
    { rewrite parse_projects_yaml_cases, lookup_singleton_eq. reflexivity. }
    split; [exact H|]. unfold load_projects_config. now rewrite H.
Qed.

(** C4, amended.  [parse_projects_yaml] returns the empty sequence when
    the parser raised, when the document is not a mapping (the empty
    document is [None]), when the mapping has no [projects] key and when
    the value under [projects] is not a list; [load_projects_config]
    returns it too when the file cannot be read.  On a [projects] list
    whose items are all mappings neither function raises, and the result
    has one record per item, in order; each record has exactly the ten
    expected keys; an absent field takes its default (the empty string,
    0, the empty list), absent or falsy topics become the empty list, a
    present field keeps its stored value whatever its type, and the name
    is carried as stored ([None] when absent). *)
Theorem normalize_spec (loaded : result value) (d p : dict) (ps : list dict)
    (e : string) (b : bool) (z : Z) (s : string) (l : list value) :
  parse_projects_yaml loaded =
    match loaded with
    | Return (VDict d) =>
        match d !! "projects" with
        | Some (VList items) => normalize_items items
        | _ => Return []
        end
    | _ => Return []
    end /\
  (parse_projects_yaml (Raise e) = Return [] /\
   load_projects_config (Raise e) = [] /\
   load_projects_config (Return (Raise e)) = []) /\
  (parse_projects_yaml (Return VNone) = Return [] /\
   parse_projects_yaml (Return (VBool b)) = Return [] /\
   parse_projects_yaml (Return (VInt z)) = Return [] /\
   parse_projects_yaml (Return (VStr s)) = Return [] /\
   parse_projects_yaml (Return (VList l)) = Return []) /\
  parse_projects_yaml (Return (VDict (delete "projects" d))) = Return [] /\
  (parse_projects_yaml (Return (VDict (<["projects" := VNone]> d)))
     = Return [] /\
   parse_projects_yaml (Return (VDict (<["projects" := VBool b]> d)))
     = Return [] /\
   parse_projects_yaml (Return (VDict (<["projects" := VInt z]> d)))
     = Return [] /\
   parse_projects_yaml (Return (VDict (<["projects" := VStr s]> d)))
     = Return [] /\
   parse_projects_yaml (Return (VDict (<["projects" := VDict p]> d)))
     = Return []) /\
  (parse_projects_yaml
     (Return (VDict (<["projects" := VList (VDict <$> ps)]> d)))
     = Return (normalized <$> ps) /\
   load_projects_config
     (Return (Return (VDict (<["projects" := VList (VDict <$> ps)]> d))))
     = normalized <$> ps /\
   length (normalized <$> ps) = length ps) /\
  dom (normalized p) = list_to_set project_keys /\
  normalized p !! "name" = Some (default VNone (p !! "name")) /\
  normalized p !! "description" = Some (default (VStr "") (p !! "description")) /\
  normalized p !! "url" = Some (default (VStr "") (p !! "url")) /\
  normalized p !! "classification" =
    Some (default (VStr "") (p !! "classification")) /\
  normalized p !! "image" = Some (default (VStr "") (p !! "image")) /\
  normalized p !! "language" = Some (default (VStr "") (p !! "language")) /\
  normalized p !! "stars" = Some (default (VInt 0) (p !! "stars")) /\
  normalized p !! "forks" = Some (default (VInt 0) (p !! "forks")) /\
  normalized p !! "topics" =
    Some (py_or (default (VList []) (p !! "topics")) (VList [])) /\
  normalized p !! "updated_at" = Some (default (VStr "") (p !! "updated_at")).
Proof.
  assert (parse_projects_yaml
     (Return (VDict (<["projects" := VList (VDict <$> ps)]> d)))
     = Return (normalized <$> ps)) as Hlist.
  { rewrite parse_projects_yaml_cases, lookup_insert_eq.
    apply normalize_items_dicts. }
  split; [apply parse_projects_yaml_cases|].
  split; [repeat split; reflexivity|].
  split; [repeat split; now rewrite parse_projects_yaml_cases|].
  split; [now rewrite parse_projects_yaml_cases, lookup_delete_eq|].
  split.
  { repeat split; now rewrite parse_projects_yaml_cases, lookup_insert_eq. }
  split.
  { split; [exact Hlist|]. split; [|apply length_fmap].
    unfold load_projects_config. now rewrite Hlist. }
  split; [apply normalized_dom|].
  unfold normalized, dict_get, dict_get_or.
  repeat split;
    repeat (rewrite lookup_insert_ne by discriminate);
    now rewrite lookup_insert_eq.
Qed.

(** C5.  In both scripts the list written is the merged list sorted by
    [updated_at] in descending order: a permutation of the merged records
    in which every record's key is at least the key of every later one,
    the key being the timestamp of the fetched repository, or the empty
    string when it has none.  The empty string is below every string, so
    whatever follows a record without timestamp has none either.  The
    sort is stable: the records of any one key stand in fetch order.  The
    logo step keeps the order.  Fetched timestamps ["2024-01-01", none,
    "2023-06-01"] come out as ["2024-01-01", "2023-06-01", ""], and two
    repositories of equal timestamp keep their order. *)
Theorem merge_sorted_desc_stable (written : string -> bool)
    (repos : list Repo.t) (projects : list dict) (m : gmap string dict) :
  existing_map projects = Return m ->
  exists out_g out_u,
    generate_index_merge repos projects = Return out_g /\
    generate_index written repos projects
      = Return (set_logo written <$> out_g) /\
    update_config repos projects = Return out_u /\
    (Permutation (generate_index_proj m <$> public_repos repos) out_g /\
     StronglySorted (key_ge sort_key) out_g /\
     (forall k, with_key sort_key k out_g =
                with_key sort_key k
                  (generate_index_proj m <$> public_repos repos)) /\
     (forall l1 x l2, out_g = l1 ++ x :: l2 -> sort_key x = "" ->
                      Forall (fun y => sort_key y = "") l2) /\
     sort_key <$> (set_logo written <$> out_g) = sort_key <$> out_g) /\
    (Permutation (update_config_proj m <$> public_repos repos) out_u /\
     StronglySorted (key_ge sort_key) out_u /\
     (forall k, with_key sort_key k out_u =
                with_key sort_key k
                  (update_config_proj m <$> public_repos repos)) /\
     (forall l1 x l2, out_u = l1 ++ x :: l2 -> sort_key x = "" ->
                      Forall (fun y => sort_key y = "") l2)) /\
    (forall r, sort_key (generate_index_proj m r)
               = default "" (Repo.updated_at r) /\
               sort_key (update_config_proj m r)
               = default "" (Repo.updated_at r)) /\
    (forall s, String.leb "" s = true) /\
    (forall out,
       generate_index_merge
         [sample_repo "a" (Some "2024-01-01"); sample_repo "b" None;
          sample_repo "c" (Some "2023-06-01")] [] = Return out ->
       sort_key <$> out = ["2024-01-01"; "2023-06-01"; ""] /\
       names out = [VStr "a"; VStr "c"; VStr "b"]) /\
    (forall out,
       update_config
         [sample_repo "a" (Some "2024-01-01"); sample_repo "b" None;
          sample_repo "c" (Some "2023-06-01")] [] = Return out ->
       sort_key <$> out = ["2024-01-01"; "2023-06-01"; ""] /\
       names out = [VStr "a"; VStr "c"; VStr "b"]) /\
    (forall out,
       generate_index_merge
         [sample_repo "a" (Some "2024-01-01"); sample_repo "b" (Some "2024-01-01");
          sample_repo "c" (Some "2024-01-01")] [] = Return out ->
       names out = [VStr "a"; VStr "b"; VStr "c"]).
Proof.
  intros Hm.
  destruct (generate_index_returns written repos projects m Hm)
    as (Hg & Hgl & Hu).
  eexists _, _.
  split; [exact Hg|]. split; [exact Hgl|]. split; [exact Hu|].
  split; [|split; [|split; [|split; [|split; [|split]]]]].
  - split; [apply sort_desc_perm|].
    split; [apply sort_desc_sorted|].
    split; [intros k; apply sort_desc_stable|].
    split.
    + intros l1 x l2 E Hx.
      apply (sorted_empty_key_last sort_key l1 l2 x); [|exact Hx].
      rewrite <- E. apply sort_desc_sorted.
    + rewrite <- list_fmap_compose. apply list_fmap_ext.
      intros i p _. apply set_logo_sort_key.
  - split; [apply sort_desc_perm|].
    split; [apply sort_desc_sorted|].
    split; [intros k; apply sort_desc_stable|].
    intros l1 x l2 E Hx.
    apply (sorted_empty_key_last sort_key l1 l2 x); [|exact Hx].
    rewrite <- E. apply sort_desc_sorted.
  - intros r. split;
      [apply generate_index_proj_key | apply update_config_proj_key].
  - apply string_leb_empty.
  - intros out [= <-]. split; reflexivity.
  - intros out [= <-]. split; reflexivity.
  - intros out [= <-]. reflexivity.
Qed.

(** C5 at the three timestamps of the specification, with no prior record. *)
Lemma merge_sorted_desc_stable_example :
  existing_map [] = Return ∅ /\
  exists out,
    generate_index_merge
      [sample_repo "a" (Some "2024-01-01"); sample_repo "b" None;
       sample_repo "c" (Some "2023-06-01")] [] = Return out /\
    StronglySorted (key_ge sort_key) out /\
    sort_key <$> out = ["2024-01-01"; "2023-06-01"; ""].
Proof.
  split; [reflexivity|].
  destruct (merge_sorted_desc_stable (fun _ => true)
              [sample_repo "a" (Some "2024-01-01"); sample_repo "b" None;
               sample_repo "c" (Some "2023-06-01")] [] ∅ eq_refl)
    as (out_g & out_u & Hg & _ & _ & (_ & Hs & _) & _ & _ & _ & Hex & _).
  exists out_g. split; [exact Hg|]. split; [exact Hs|].
  exact (proj1 (Hex out_g Hg)).
Defined.


(** The claim C7 fails on the code when the fetch delivers a repository
    twice: both scripts then write two records of that name. *)
Lemma merge_names_not_unique :
  (exists out,
     generate_index_merge
       [sample_repo "x" (Some "2024-01-01"); sample_repo "x" (Some "2024-01-01")]
       [] = Return out /\
     names out = [VStr "x"; VStr "x"] /\ ~ NoDup (names out)) /\
  (exists out,
     update_config
       [sample_repo "x" (Some "2024-01-01"); sample_repo "x" (Some "2024-01-01")]
       [] = Return out /\
     names out = [VStr "x"; VStr "x"] /\ ~ NoDup (names out)).
Proof.
  assert (~ NoDup [VStr "x"; VStr "x"]) as Hdup.
  { intros H. apply NoDup_cons_1_1 in H. apply H. now left. }
  split; eexists; (split; [reflexivity|]); (split; [reflexivity|]);
    exact Hdup.
Qed.

(** C7, amended.  The list written holds exactly one record for each
    public repository fetched, under that repository's name, and no
    other record: a prior record whose name was not fetched is dropped,
    and with nothing fetched the list is empty.  When the names fetched
    are pairwise distinct, so are the names written. *)
Theorem merge_names_unique (written : string -> bool) (repos : list Repo.t)
    (projects : list dict) (m : gmap string dict) :
  existing_map projects = Return m ->
  exists out_g out_u,
    generate_index_merge repos projects = Return out_g /\
    generate_index written repos projects
      = Return (set_logo written <$> out_g) /\
    update_config repos projects = Return out_u /\
    Permutation (names out_g)
                ((fun r => VStr (Repo.name r)) <$> public_repos repos) /\
    Permutation (names out_u)
                ((fun r => VStr (Repo.name r)) <$> public_repos repos) /\
    names (set_logo written <$> out_g) = names out_g /\
    (forall q, In q out_g ->
       exists r, In r repos /\ Repo.private r = false /\
                 q = generate_index_proj m r) /\
    (forall q, In q out_u ->
       exists r, In r repos /\ Repo.private r = false /\
                 q = update_config_proj m r) /\
    (forall n, ~ In n (Repo.name <$> public_repos repos) ->
       ~ In (VStr n) (names out_g) /\ ~ In (VStr n) (names out_u)) /\
    (repos = [] -> out_g = [] /\ out_u = []) /\
    (NoDup (Repo.name <$> public_repos repos) ->
       NoDup (names out_g) /\ NoDup (names out_u) /\
       NoDup (names (set_logo written <$> out_g))).
Proof.
  intros Hm.
  destruct (generate_index_returns written repos projects m Hm)
    as (Hg & Hgl & Hu).
  eexists _, _.
  split; [exact Hg|]. split; [exact Hgl|]. split; [exact Hu|].
  assert (Permutation
            (names (sort_desc sort_key
                      (generate_index_proj m <$> public_repos repos)))
            ((fun r => VStr (Repo.name r)) <$> public_repos repos)) as Pg.
  { rewrite names_sort_desc. now rewrite names_generate_index. }
  assert (Permutation
            (names (sort_desc sort_key
                      (update_config_proj m <$> public_repos repos)))
            ((fun r => VStr (Repo.name r)) <$> public_repos repos)) as Pu.
  { rewrite names_sort_desc. now rewrite names_update_config. }
  split; [exact Pg|]. split; [exact Pu|].
  split; [apply names_set_logo|].
  split; [|split; [|split; [|split]]].
  - intros q Hq. apply sort_desc_In, in_map_iff in Hq as (r & <- & Hr).
    apply public_repos_In in Hr as [Hr Hpub]. now exists r.
  - intros q Hq. apply sort_desc_In, in_map_iff in Hq as (r & <- & Hr).
    apply public_repos_In in Hr as [Hr Hpub]. now exists r.
  - intros n Hn. split; intros Hin.
    + apply (Permutation_in _ Pg), in_map_iff in Hin as (r & [= <-] & Hr).
      apply Hn, in_map_iff. now exists r.
    + apply (Permutation_in _ Pu), in_map_iff in Hin as (r & [= <-] & Hr).
      apply Hn, in_map_iff. now exists r.
  - intros ->. split; reflexivity.
  - intros Hnd.
    assert (NoDup ((fun r => VStr (Repo.name r)) <$> public_repos repos))
      as Hv.
    { rewrite (list_fmap_compose Repo.name VStr). now apply NoDup_VStr. }
    assert (NoDup (names (sort_desc sort_key
                      (generate_index_proj m <$> public_repos repos)))) as Ng.
    { now rewrite Pg. }
    split; [exact Ng|]. split.
    + now rewrite Pu.
    + now rewrite names_set_logo.
Qed.

(** C7, amended, at two repositories fetched and a prior record [old] that
    was not fetched. *)
Lemma merge_names_unique_example :
  existing_map [ {[ "name" := VStr "old" ]} ] = Return {[ "old" := {[ "name" := VStr "old" ]} ]} /\
  NoDup (Repo.name <$> public_repos
           [sample_repo "a" (Some "2024-01-01"); sample_repo "b" None]) /\
  exists out,
    generate_index_merge
      [sample_repo "a" (Some "2024-01-01"); sample_repo "b" None]
      [ {[ "name" := VStr "old" ]} ] = Return out /\
    NoDup (names out) /\ ~ In (VStr "old") (names out).
Proof.
  assert (existing_map [ {[ "name" := VStr "old" ]} ]
          = Return {[ "old" := {[ "name" := VStr "old" ]} ]}) as Hm
    by reflexivity.
  assert (NoDup (Repo.name <$> public_repos
           [sample_repo "a" (Some "2024-01-01"); sample_repo "b" None]))
    as Hnd.
  { apply (bool_decide_unpack _). vm_compute. reflexivity. }
  split; [exact Hm|]. split; [exact Hnd|].
  destruct (merge_names_unique (fun _ => true)
              [sample_repo "a" (Some "2024-01-01"); sample_repo "b" None]
              _ _ Hm)
    as (out_g & out_u & Hg & _ & _ & _ & _ & _ & _ & _ & Hdrop & _ & Huniq).
  exists out_g. split; [exact Hg|]. split; [exact (proj1 (Huniq Hnd))|].
  apply (Hdrop "old"). cbn. intuition discriminate.
Defined.

(** C8. Picking from a palette is a function of the name and the palette
    alone: the same name and palette give the same element on every call,
    the element is a member of the palette, the index computed is within
    the palette, and for the empty name the hash stays 0 and the first
    element of the palette comes back. *)
Theorem pick_deterministic_member (palette : list string) (name : string) :
  palette <> [] ->
  (forall name' palette',
     name' = name -> palette' = palette ->
     pick palette' name' = pick palette name) /\
  In (pick palette name) palette /\
  (0 <= palette_index (length palette) name < Z.of_nat (length palette))%Z /\
  animal_hash "" = 0%Z /\
  palette_index (length palette) "" = 0%Z /\
  palette !! 0%nat = Some (pick palette "").
Proof.
  intros Hne.
  assert (0 < length palette)%nat as Hlen
    by (destruct palette; [congruence | simpl; lia]).
  split; [|split; [|split; [|split; [|split]]]].
  - intros name' palette' -> ->. reflexivity.
  - now apply pick_In.
  - now apply palette_index_range.
  - reflexivity.
  - unfold palette_index. change (animal_hash "") with 0%Z.
    now rewrite Zmod_0_l.
  - rewrite pick_empty_name. now destruct palette.
Qed.

(** C8 at the palette of the program, [animals], and the name "portfolio". *)
Lemma pick_deterministic_member_animals :
  animals <> [] /\
  In (get_animal_for_project "portfolio") animals /\
  get_animal_for_project "" = "🦁".
Proof.
  assert (animals <> []) as Hne by discriminate.
  destruct (pick_deterministic_member animals "portfolio" Hne)
    as (_ & Hin & _ & _ & _ & Hhd).
  split; [exact Hne|]. split; [exact Hin|].
  unfold get_animal_for_project. simpl in Hhd. congruence.
Defined.

(** C9. The assets of a project are functions of its name, computed anew
    on every run.  The slug has, for each character of the name, its lower
    case when it is alphanumeric and a hyphen otherwise.  The colour is
    the base-31 hash of the name reduced to 32 bits, taken modulo 360 (a
    hue from 0 to 359), written as [hsl(<hue> 80% 50%)].  The initials
    split the name on hyphens and whitespace: with no part, the first
    [limit] characters of the name; with one part, its first [limit]
    characters; otherwise the first character of each of the first
    [limit] parts; upper-cased in all three cases.  So "my-cool-project"
    gives "MC" and "x" gives "X".  The logo entry written for a project
    does not depend on a logo entry it already had. *)
Theorem asset_derivation_spec (name : string) (limit : nat)
    (written : string -> bool) (p : dict) (old_logo : value) :
  _slug name =
    str_map (fun c => if isalnum c then lower_char c else "-"%char) name /\
  String.length (_slug name) = String.length name /\
  _color_from_name name =
    "hsl(" +:+ str_of_int ((poly31 name mod 2 ^ 32) mod 360) +:+ " 80% 50%)" /\
  (0 <= (poly31 name mod 2 ^ 32) mod 360 < 360)%Z /\
  _initials name limit =
    match split_by hyphen_or_space "" name with
    | [] => upper (slice_to limit name)
    | [part] => upper (slice_to limit part)
    | parts => upper (join (slice_to 1 <$> take limit parts))
    end /\
  _initials "my-cool-project" 2 = "MC" /\
  _initials "x" 2 = "X" /\
  _color_from_name "x" = "hsl(120 80% 50%)" /\
  _slug "My Cool_Project.v2" = "my-cool-project-v2" /\
  set_logo written (<["logo" := old_logo]> p) = set_logo written p.
Proof.
  split; [apply slug_charwise|].
  split; [rewrite slug_charwise; apply str_map_length|].
  split; [unfold _color_from_name; now rewrite color_hash_poly31|].
  split; [apply Z.mod_pos_bound; lia|].
  split; [apply initials_parts|].
  do 4 (split; [reflexivity|]).
  unfold set_logo, dict_get.
  rewrite lookup_insert_ne by discriminate.
  destruct (written _); apply insert_insert_eq.
Qed.

(** C10.  Neither script checks a prior classification against
    {training, project}.  Whenever the prior record of a fetched public
    repository (the last of its name) has any non-empty string as its
    classification, the record written for that repository by
    [generate_index], before and after the logo step, and by
    [update_config] carries that very string. *)
Theorem classification_not_validated (written : string -> bool)
    (repos : list Repo.t) (projects : list dict) (m : gmap string dict)
    (r : Repo.t) (p : dict) (s : string) :
  existing_map projects = Return m ->
  In r repos -> Repo.private r = false ->
  prior_record projects (Repo.name r) = Some p ->
  p !! "classification" = Some (VStr s) -> s <> "" ->
  exists out_g out_u,
    generate_index_merge repos projects = Return out_g /\
    generate_index written repos projects
      = Return (set_logo written <$> out_g) /\
    update_config repos projects = Return out_u /\
    (In (generate_index_proj m r) out_g /\
     generate_index_proj m r !! "name" = Some (VStr (Repo.name r)) /\
     generate_index_proj m r !! "classification" = Some (VStr s)) /\
    (In (set_logo written (generate_index_proj m r))
        (set_logo written <$> out_g) /\
     set_logo written (generate_index_proj m r) !! "name"
       = Some (VStr (Repo.name r)) /\
     set_logo written (generate_index_proj m r) !! "classification"
       = Some (VStr s)) /\
    (In (update_config_proj m r) out_u /\
     update_config_proj m r !! "name" = Some (VStr (Repo.name r)) /\
     update_config_proj m r !! "classification" = Some (VStr s)).
Proof.
  intros Hm Hr Hpub Hprior Hc Hs.
  destruct (generate_index_returns written repos projects m Hm)
    as (Hg & Hgl & Hu).
  assert (m !! Repo.name r = Some p) as Hp
    by now rewrite (existing_map_lookup _ _ _ Hm).
  assert (In r (public_repos repos)) as Hin by now apply public_repos_In.
  assert (generate_index_proj m r !! "classification" = Some (VStr s)) as Hcg.
  { apply (generate_index_classification_sticky m r p); auto.
    now apply truthy_VStr. }
  assert (In (generate_index_proj m r)
             (sort_desc sort_key (generate_index_proj m <$> public_repos repos)))
    as Hing.
  { apply sort_desc_In, in_map_iff. now exists r. }
  eexists _, _.
  split; [exact Hg|]. split; [exact Hgl|]. split; [exact Hu|].
  split; [|split].
  - split; [exact Hing|]. split; [apply generate_index_proj_name | exact Hcg].
  - split; [apply in_map_iff; eauto|].
    rewrite !set_logo_other by discriminate.
    split; [apply generate_index_proj_name | exact Hcg].
  - split; [apply sort_desc_In, in_map_iff; now exists r|].
    split; [apply update_config_proj_name|].
    rewrite (update_config_classification_prior m r p Hp).
    + now rewrite Hc.
    + now apply prior_record_named in Hprior.
Qed.

(** C10 at a prior classification outside the enumeration, "banana". *)
Lemma classification_not_validated_example :
  existing_map
    [ <["classification" := VStr "banana"]> {[ "name" := VStr "x" ]} ]
  = Return {[ "x" :=
       <["classification" := VStr "banana"]> {[ "name" := VStr "x" ]} ]} /\
  exists out_g out_u,
    generate_index_merge [sample_repo "x" None]
      [ <["classification" := VStr "banana"]> {[ "name" := VStr "x" ]} ]
      = Return out_g /\
    update_config [sample_repo "x" None]
      [ <["classification" := VStr "banana"]> {[ "name" := VStr "x" ]} ]
      = Return out_u /\
    (exists q, In q out_g /\ q !! "classification" = Some (VStr "banana")) /\
    (exists q, In q out_u /\ q !! "classification" = Some (VStr "banana")).
Proof.
  assert (existing_map
            [ <["classification" := VStr "banana"]> {[ "name" := VStr "x" ]} ]
          = Return {[ "x" :=
              <["classification" := VStr "banana"]> {[ "name" := VStr "x" ]} ]})
    as Hm by reflexivity.
  split; [exact Hm|].
  destruct (classification_not_validated (fun _ => true)
              [sample_repo "x" None]
              [ <["classification" := VStr "banana"]> {[ "name" := VStr "x" ]} ]
              _ (sample_repo "x" None)
              (<["classification" := VStr "banana"]> {[ "name" := VStr "x" ]})
              "banana" Hm)
    as (out_g & out_u & Hg & _ & Hu & (Hing & _ & Hcg) & _ & (Hinu & _ & Hcu)).
  - now left.
  - reflexivity.
  - reflexivity.
  - reflexivity.
  - discriminate.
  - exists out_g, out_u. split; [exact Hg|]. split; [exact Hu|].
    split; eexists; split; eauto.
Defined.

(** The end-to-end scenario of the specification, on [generate_index]:
    the prior list holds [demo-app], classified "training" with the lion
    as image; the fetch delivers [demo-app] with 5 stars and the new
    [new-lib], updated later.  [new-lib] comes first, classified
    "project" with a picked image; [demo-app] follows with its prior
    classification and image and the new star count. *)
Example end_to_end_scenario :
  exists new_lib demo_app,
    generate_index_merge
      [ Repo.mk "demo-app" (Some "") "https://github.com/jaygit/demo-app" None
                5 0 (Return []) false false (Some "2025-01-01");
        Repo.mk "new-lib" (Some "") "https://github.com/jaygit/new-lib" None
                0 0 (Return []) false false (Some "2025-02-01") ]
      [ <["image" := VStr "🦁"]>
          (<["classification" := VStr "training"]>
             {[ "name" := VStr "demo-app" ]}) ]
    = Return [new_lib; demo_app] /\
    new_lib !! "name" = Some (VStr "new-lib") /\
    new_lib !! "classification" = Some (VStr "project") /\
    new_lib !! "image" = Some (VStr (get_animal_for_project "new-lib")) /\
    demo_app !! "name" = Some (VStr "demo-app") /\
    demo_app !! "classification" = Some (VStr "training") /\
    demo_app !! "image" = Some (VStr "🦁") /\
    demo_app !! "stars" = Some (VInt 5).
Proof.
  eexists _, _. split; [reflexivity|]. repeat split.
Qed.

(* ===================================================================== *)
(** * Further properties of the code *)
(* ===================================================================== *)

(** ** Fetching *)

Section Fetch.

Lemma fetch_loop_take (listing repos : list Repo.t) (i : nat) :
  (i <= 99)%nat ->
  fetch_loop i listing repos = repos ++ take (100 - i) listing.
Proof.
  revert i repos. induction listing as [|repo rest IH]; intros i repos Hi.
  - cbn [fetch_loop]. now rewrite take_nil, app_nil_r.
  - cbn [fetch_loop]. destruct (Nat.leb_spec 99 i) as [Hge|Hlt].
    + assert (i = 99)%nat as -> by lia. reflexivity.
    + rewrite IH by lia. rewrite <- app_assoc.
      replace (100 - i)%nat with (S (100 - S i)) by lia. reflexivity.
Qed.

End Fetch.

(** X1.  [fetch_github_repos] keeps the first hundred repositories of the
    listing, in the order of the listing, and all of them when there are
    no more than a hundred; an error of the API is raised again.  So
    neither script writes more than a hundred records. *)
Theorem fetch_first_hundred {U : Type} (user : U) (listing : list Repo.t)
    (e : string) (written : string -> bool) (file : option (result value)) :
  fetch_github_repos (Return (user, listing))
    = Return (user, take 100 listing) /\
  (length (fetch_loop 0 listing []) <= 100)%nat /\
  ((length listing <= 100)%nat -> fetch_loop 0 listing [] = listing) /\
  fetch_github_repos (Raise e) = Raise (A := U * list Repo.t) e /\
  (forall out,
     generate_index_from_file written file (fetch_loop 0 listing [])
       = Return out -> (length out <= 100)%nat) /\
  (forall out,
     update_config_from_file file (fetch_loop 0 listing []) = Return out ->
     (length out <= 100)%nat).
Proof.
  assert (fetch_loop 0 listing [] = take 100 listing) as E
    by (now rewrite fetch_loop_take by lia).
  assert (forall f : Repo.t -> dict,
            length (sort_desc sort_key
                      (f <$> public_repos (take 100 listing))) <= 100)%nat
    as Hlen.
  { intros f.
    assert (length (public_repos (take 100 listing)) <= 100)%nat as Hp.
    { unfold public_repos.
      etransitivity; [apply List.filter_length_le|].
      rewrite length_take. lia. }
    intros. erewrite <- Permutation_length by apply sort_desc_perm.
    now rewrite length_fmap. }
  split; [unfold fetch_github_repos; now rewrite E|].
  split; [rewrite E, length_take; lia|].
  split; [intros H; rewrite E; now apply take_ge|].
  split; [reflexivity|].
  rewrite E. split; intros out.
  - unfold generate_index_from_file.
    destruct (existing_map_of _); [|discriminate].
    intros [= <-]. rewrite length_fmap. apply Hlen.
  - unfold update_config_from_file.
    destruct (existing_map_of _); [|discriminate].
    intros [= <-]. apply Hlen.
Qed.

(** X1 at a listing of 101 repositories. *)
Lemma fetch_first_hundred_example :
  (length (replicate 3 (sample_repo "r" None)) <= 100)%nat /\
  fetch_loop 0 (replicate 3 (sample_repo "r" None)) []
    = replicate 3 (sample_repo "r" None) /\
  length (fetch_loop 0 (replicate 101 (sample_repo "r" None)) []) = 100%nat.
Proof.
  assert (length (replicate 3 (sample_repo "r" None)) <= 100)%nat as H
    by (rewrite length_replicate; lia).
  split; [exact H|]. split.
  - exact (proj1 (proj2 (proj2
      (fetch_first_hundred tt (replicate 3 (sample_repo "r" None)) ""
         (fun _ => true) None))) H).
  - reflexivity.
Defined.

(** X2.  The emoji and the colour come from one and the same hash: the
    loop of [get_animal_for_project], with its shift and subtraction, and
    the loop of [_color_from_name], with its multiplication by 31, compute
    the same number for every name, the base-31 polynomial of the
    character codes modulo 2^32.  It is never negative, so [abs] changes
    nothing: the emoji is the one at index [hash mod 86] and the hue is
    [hash mod 360]. *)
Theorem one_hash_for_emoji_and_colour (name : string) :
  animal_hash name = color_hash name /\
  color_hash name = (poly31 name mod 2 ^ 32)%Z /\
  (0 <= animal_hash name < 2 ^ 32)%Z /\
  Z.abs (animal_hash name) = animal_hash name /\
  get_animal_for_project name
    = nth (Z.to_nat (color_hash name mod 86)) animals "" /\
  _color_from_name name
    = "hsl(" +:+ str_of_int (animal_hash name mod 360) +:+ " 80% 50%)".
Proof.
  pose proof (animal_hash_range name) as Hr.
  split; [apply animal_hash_color_hash|].
  split; [apply color_hash_poly31|].
  split; [exact Hr|].
  split; [apply Z.abs_eq; lia|].
  split.
  - unfold get_animal_for_project, pick, palette_index.
    rewrite Z.abs_eq by lia. now rewrite animal_hash_color_hash.
  - unfold _color_from_name. now rewrite animal_hash_color_hash.
Qed.

(** ** Case maps, character by character *)

Section CaseMaps.

Lemma lower_upper_char (c : ascii) : lower_char (upper_char c) = lower_char c.
Proof. destruct c as [[] [] [] [] [] [] [] []]; reflexivity. Qed.

Lemma lower_lower_char (c : ascii) : lower_char (lower_char c) = lower_char c.
Proof. destruct c as [[] [] [] [] [] [] [] []]; reflexivity. Qed.

Lemma upper_upper_char (c : ascii) : upper_char (upper_char c) = upper_char c.
Proof. destruct c as [[] [] [] [] [] [] [] []]; reflexivity. Qed.

Lemma upper_char_not_lower (c : ascii) : is_lower (upper_char c) = false.
Proof. destruct c as [[] [] [] [] [] [] [] []]; reflexivity. Qed.

Lemma slug_char_of (c : ascii) :
  slug_char (if isalnum c then lower_char c else "-"%char) = true.
Proof. destruct c as [[] [] [] [] [] [] [] []]; reflexivity. Qed.

Lemma slug_char_fixed (c : ascii) :
  slug_char c = true ->
  (if isalnum c then lower_char c else "-"%char) = c.
Proof.
  destruct c as [[] [] [] [] [] [] [] []]; (reflexivity || discriminate).
Qed.

Lemma upper_char_ascii (c : ascii) :
  (N_of_ascii c < 128)%N -> (N_of_ascii (upper_char c) < 128)%N.
Proof.
  destruct c as [[] [] [] [] [] [] [] []]; intros H;
    first [reflexivity | exact H].
Qed.

Lemma lower_char_ascii (c : ascii) :
  (N_of_ascii c < 128)%N -> (N_of_ascii (lower_char c) < 128)%N.
Proof.
  destruct c as [[] [] [] [] [] [] [] []]; intros H;
    first [reflexivity | exact H].
Qed.

Lemma lower_upper (s : string) : ascii_text s -> lower (upper s) = lower s.
Proof.
  intros H. rewrite (lower_ascii s H), lower_ascii.
  - unfold upper. rewrite str_map_map. apply str_map_ext.
    apply lower_upper_char.
  - apply ascii_text_str_map; [apply upper_char_ascii | exact H].
Qed.

Lemma lower_lower (s : string) : ascii_text s -> lower (lower s) = lower s.
Proof.
  intros H. rewrite (lower_ascii s H), lower_ascii.
  - rewrite str_map_map. apply str_map_ext. apply lower_lower_char.
  - apply ascii_text_str_map; [apply lower_char_ascii | exact H].
Qed.

Lemma str_map_chars (f : ascii -> ascii) (s : string) :
  list_ascii_of_string (str_map f s) = f <$> list_ascii_of_string s.
Proof. induction s as [|c s IH]; [reflexivity|]. cbn. now rewrite IH. Qed.

Lemma str_or_default (x : option string) : str_or x "" = default "" x.
Proof.
  destruct x as [s|]; [|reflexivity]. cbn.
  destruct (String.eqb_spec s ""); congruence.
Qed.

Lemma existsb_fmap {A B : Type} (f : A -> B) (g : B -> bool) (l : list A) :
  existsb g (f <$> l) = existsb (fun x => g (f x)) l.
Proof. induction l as [|x l IH]; [reflexivity|]. cbn. now rewrite IH. Qed.

Lemma topics_of_with_case (f : string -> string) (repo : Repo.t) :
  topics_of (with_case f repo) = f <$> topics_of repo.
Proof. unfold topics_of, with_case. cbn. now destruct (Repo.get_topics repo). Qed.

Lemma classification_through_lower (f : string -> string) (repo : Repo.t) :
  lower (f (Repo.name repo)) = lower (Repo.name repo) ->
  (forall d, Repo.description repo = Some d -> lower (f d) = lower d) ->
  Forall (fun t => lower (f t) = lower t) (topics_of repo) ->
  get_auto_classification (with_case f repo) = get_auto_classification repo.
Proof.
  intros Hn Hd Ht. unfold get_auto_classification.
  rewrite topics_of_with_case, existsb_fmap.
  assert (lower (str_or (Repo.description (with_case f repo)) "")
          = lower (str_or (Repo.description repo) "")) as ->.
  { rewrite !str_or_default. cbn.
    destruct (Repo.description repo) as [d|]; cbn; [now apply Hd | reflexivity]. }
  cbn [with_case Repo.name Repo.fork Repo.stargazers_count]. rewrite Hn.
  assert (existsb (fun x => keyword_in (lower (f x))) (topics_of repo)
          = existsb (fun topic => keyword_in (lower topic)) (topics_of repo))
    as ->; [|reflexivity].
  induction Ht as [|t l Hl _ IH]; [reflexivity|].
  cbn [existsb]. now rewrite Hl, IH.
Qed.

End CaseMaps.

(** X3.  The classification does not depend on the case of letters: a
    repository whose name, description and topics are put in upper case,
    or in lower case, is classified as before. *)
Theorem classification_ignores_case (repo : Repo.t) :
  ascii_text (Repo.name repo) ->
  ascii_text (str_or (Repo.description repo) "") ->
  Forall ascii_text (topics_of repo) ->
  get_auto_classification (with_case upper repo)
    = get_auto_classification repo /\
  get_auto_classification (with_case lower repo)
    = get_auto_classification repo.
Proof.
  intros Hn Hd Ht.
  assert (forall d, Repo.description repo = Some d -> ascii_text d) as Hd'.
  { intros d E. rewrite E, str_or_default in Hd. exact Hd. }
  split; apply classification_through_lower.
  - now apply lower_upper.
  - intros d E. apply lower_upper. now apply Hd'.
  - eapply List.Forall_impl; [|exact Ht]. intros t. apply lower_upper.
  - now apply lower_lower.
  - intros d E. apply lower_lower. now apply Hd'.
  - eapply List.Forall_impl; [|exact Ht]. intros t. apply lower_lower.
Qed.

(** X3 at a repository named "Intro-Course", described "Notes". *)
Lemma classification_ignores_case_example :
  ascii_text "Intro-Course" /\
  get_auto_classification
    (Repo.mk "INTRO-COURSE" (Some "NOTES") "u" None 3 0 (Return ["GO"])
             false false None)
  = get_auto_classification
    (Repo.mk "Intro-Course" (Some "Notes") "u" None 3 0 (Return ["go"])
             false false None) /\
  get_auto_classification
    (Repo.mk "Intro-Course" (Some "Notes") "u" None 3 0 (Return ["go"])
             false false None) = "training".
Proof.
  assert (ascii_text "Intro-Course") as Hn
    by (unfold ascii_text; cbn; repeat constructor).
  assert (ascii_text "Notes") as Hd
    by (unfold ascii_text; cbn; repeat constructor).
  assert (Forall ascii_text ["go"]) as Ht
    by (unfold ascii_text; cbn; repeat constructor).
  split; [exact Hn|]. split; [|reflexivity].
  exact (proj1 (classification_ignores_case
    (Repo.mk "Intro-Course" (Some "Notes") "u" None 3 0 (Return ["go"])
             false false None) Hn Hd Ht)).
Defined.

(** ** Slugs and initials *)

Section SlugInitials.

Lemma string_length_append (a b : string) :
  String.length (a +:+ b) = (String.length a + String.length b)%nat.
Proof.
  induction a as [|c a IH]; [reflexivity|].
  rewrite append_cons. cbn [String.length]. now rewrite IH.
Qed.

Lemma slice_to_length (n : nat) (s : string) :
  (String.length (slice_to n s) <= n)%nat.
Proof.
  revert s. induction n as [|n IH]; intros [|c s]; cbn; try lia.
  specialize (IH s). lia.
Qed.

Lemma slice_to_nonempty (n : nat) (s : string) :
  (0 < n)%nat -> s <> "" -> slice_to n s <> "".
Proof. destruct n; [lia|]. now destruct s. Qed.

Lemma join_firsts_length (l : list string) :
  (String.length (join (slice_to 1 <$> l)) <= length l)%nat.
Proof.
  induction l as [|p l IH]; [cbn; lia|].
  unfold join in *. cbn [fmap list_fmap fold_right length].
  rewrite string_length_append.
  pose proof (slice_to_length 1 p). cbn [fmap] in IH. lia.
Qed.

Lemma upper_length (s : string) : String.length (upper s) = String.length s.
Proof. apply str_map_length. Qed.

Lemma upper_nonempty (s : string) : s <> "" -> upper s <> "".
Proof. now destruct s. Qed.

Lemma upper_no_lower (s : string) :
  Forall (fun c => is_lower c = false) (list_ascii_of_string (upper s)).
Proof.
  unfold upper. rewrite str_map_chars. apply Forall_fmap, Forall_forall.
  intros c _. apply upper_char_not_lower.
Qed.

End SlugInitials.

(** X4.  A slug is safe as a file name and stable: it is made of
    lower-case letters, digits and hyphens only, it is as long as the
    name, and the slug of a slug is that slug. *)
Theorem slug_safe_and_idempotent (name : string) :
  ascii_text name ->
  Forall (fun c => slug_char c = true) (list_ascii_of_string (_slug name)) /\
  String.length (_slug name) = String.length name /\
  _slug (_slug name) = _slug name.
Proof.
  intros _. rewrite slug_charwise.
  split; [|split].
  - rewrite str_map_chars. apply Forall_fmap, Forall_forall.
    intros c _. apply slug_char_of.
  - apply str_map_length.
  - rewrite slug_charwise, str_map_map. apply str_map_ext.
    intros c. apply slug_char_fixed, slug_char_of.
Qed.

(** X4 at the name "My Cool_Project.v2". *)
Lemma slug_safe_and_idempotent_example :
  ascii_text "My Cool_Project.v2" /\
  _slug (_slug "My Cool_Project.v2") = _slug "My Cool_Project.v2".
Proof.
  assert (ascii_text "My Cool_Project.v2") as H
    by (unfold ascii_text; cbn; repeat constructor).
  split; [exact H|].
  exact (proj2 (proj2 (slug_safe_and_idempotent "My Cool_Project.v2" H))).
Defined.

(** X5.  The initials fit the logo: they are at most [limit] characters,
    none of them a lower-case letter, and they are empty only when the
    name is empty or [limit] is 0. *)
Theorem initials_bounded (name : string) (limit : nat) :
  ascii_text name ->
  (String.length (_initials name limit) <= limit)%nat /\
  Forall (fun c => is_lower c = false)
         (list_ascii_of_string (_initials name limit)) /\
  (name <> "" -> (0 < limit)%nat -> _initials name limit <> "").
Proof.
  intros _. rewrite initials_parts.
  pose proof (split_by_nonempty hyphen_or_space "" name) as Hparts.
  destruct (split_by hyphen_or_space "" name) as [|p [|q parts]].
  - split; [rewrite upper_length; apply slice_to_length|].
    split; [apply upper_no_lower|].
    intros Hn Hl. now apply upper_nonempty, slice_to_nonempty.
  - split; [rewrite upper_length; apply slice_to_length|].
    split; [apply upper_no_lower|].
    intros _ Hl. apply upper_nonempty, slice_to_nonempty; [exact Hl|].
    now apply Forall_inv in Hparts.
  - split; [|split; [apply upper_no_lower|]].
    + rewrite upper_length.
      etransitivity; [apply join_firsts_length|].
      rewrite length_take. lia.
    + intros _ Hl. apply upper_nonempty.
      destruct limit as [|limit]; [lia|].
      apply Forall_inv in Hparts. destruct p; [congruence|]. discriminate.
Qed.

(** X5 at the name "my-cool-project" and the default limit. *)
Lemma initials_bounded_example :
  ascii_text "my-cool-project" /\
  (String.length (_initials "my-cool-project" 2) <= 2)%nat /\
  _initials "my-cool-project" 2 <> "".
Proof.
  assert (ascii_text "my-cool-project") as H
    by (unfold ascii_text; cbn; repeat constructor).
  destruct (initials_bounded "my-cool-project" 2 H) as (Hlen & _ & Hne).
  split; [exact H|]. split; [exact Hlen|].
  apply Hne; [discriminate | lia].
Defined.

(** ** Normalised records *)

Section Normalised.

Lemma normalized_fields (p : dict) :
  normalized p !! "name" = Some (dict_get p "name") /\
  normalized p !! "description" = Some (dict_get_or p "description" (VStr "")) /\
  normalized p !! "url" = Some (dict_get_or p "url" (VStr "")) /\
  normalized p !! "classification"
    = Some (dict_get_or p "classification" (VStr "")) /\
  normalized p !! "image" = Some (dict_get_or p "image" (VStr "")) /\
  normalized p !! "language" = Some (dict_get_or p "language" (VStr "")) /\
  normalized p !! "stars" = Some (dict_get_or p "stars" (VInt 0)) /\
  normalized p !! "forks" = Some (dict_get_or p "forks" (VInt 0)) /\
  normalized p !! "topics"
    = Some (py_or (dict_get_or p "topics" (VList [])) (VList [])) /\
  normalized p !! "updated_at" = Some (dict_get_or p "updated_at" (VStr "")).
Proof.
  unfold normalized.
  repeat split;
    repeat (rewrite lookup_insert_ne by discriminate);
    now rewrite lookup_insert_eq.
Qed.

Lemma py_or_idem (a b : value) : truthy b = false -> py_or (py_or a b) b = py_or a b.
Proof.
  intros Hb. unfold py_or. destruct (truthy a) eqn:E; [now rewrite E|].
  now rewrite Hb.
Qed.

Lemma normalized_idem (p : dict) : normalized (normalized p) = normalized p.
Proof.
  destruct (normalized_fields p)
    as (Hn & Hd & Hu & Hc & Hi & Hl & Hs & Hf & Ht & Ha).
  unfold normalized at 1. unfold dict_get, dict_get_or.
  rewrite Hn, Hd, Hu, Hc, Hi, Hl, Hs, Hf, Ht, Ha.
  cbn [default from_option id].
  rewrite py_or_idem by reflexivity. reflexivity.
Qed.

Lemma normalize_items_Return (items : list value) (l : list dict) :
  normalize_items items = Return l ->
  exists ps, items = VDict <$> ps /\ l = normalized <$> ps.
Proof.
  revert l. induction items as [|p items IH]; intros l H.
  - injection H as <-. now exists [].
  - cbn [normalize_items] in H.
    destruct p as [| | | | |d]; try discriminate. cbn [normalize_item] in H.
    destruct (normalize_items items) as [l'|]; [|discriminate].
    injection H as <-. destruct (IH l' eq_refl) as (ps & -> & ->).
    now exists (d :: ps).
Qed.

End Normalised.

(** X6.  Normalising is idempotent: a normalised record normalises to
    itself, so parsing a document whose [projects] are the records of an
    earlier parse gives those records back. *)
Theorem normalize_idempotent (p d : dict) (ps : list dict) :
  normalized (normalized p) = normalized p /\
  parse_projects_yaml
    (Return (VDict (<["projects" := VList (VDict <$> (normalized <$> ps))]> d)))
  = Return (normalized <$> ps) /\
  (forall loaded records d',
     parse_projects_yaml loaded = Return records ->
     parse_projects_yaml
       (Return (VDict (<["projects" := VList (VDict <$> records)]> d')))
     = Return records).
Proof.
  assert (forall qs d',
    parse_projects_yaml
      (Return (VDict (<["projects" := VList (VDict <$> (normalized <$> qs))]> d')))
    = Return (normalized <$> qs)) as Hround.
  { intros qs d'. rewrite parse_projects_yaml_cases, lookup_insert_eq.
    rewrite normalize_items_dicts. f_equal.
    rewrite <- list_fmap_compose. apply list_fmap_ext.
    intros i q _. apply normalized_idem. }
  split; [apply normalized_idem|]. split; [apply Hround|].
  intros loaded records d' H.
  rewrite parse_projects_yaml_cases in H.
  destruct loaded as [[| | | | |doc]|];
    try (injection H as <-;
         now rewrite parse_projects_yaml_cases, lookup_insert_eq).
  destruct (doc !! "projects") as [[| | | |items|]|];
    try (injection H as <-;
         now rewrite parse_projects_yaml_cases, lookup_insert_eq).
  apply normalize_items_Return in H as (qs & _ & ->). apply Hround.
Qed.

(** X6 at a document with one record that has only a name. *)
Lemma normalize_idempotent_example :
  exists records,
    parse_projects_yaml
      (Return (VDict {[ "projects" := VList [VDict {[ "name" := VStr "x" ]}] ]}))
    = Return records /\
    parse_projects_yaml
      (Return (VDict {[ "projects" := VList (VDict <$> records) ]}))
    = Return records.
Proof.
  eexists. split; [reflexivity|].
  apply (proj2 (proj2 (normalize_idempotent ∅ ∅ []))
           (Return (VDict {[ "projects" :=
              VList [VDict {[ "name" := VStr "x" ]}] ]})) _ ∅).
  reflexivity.
Defined.

(** X7.  [load_projects_config] is all or nothing: when it returns any
    record at all, the file was read and parsed, the document is a mapping
    whose [projects] is a list of mappings only, and every item of that
    list has its record, in order. *)
Theorem load_all_or_nothing (file : result (result value)) :
  load_projects_config file <> [] ->
  exists d ps,
    file = Return (Return (VDict d)) /\
    d !! "projects" = Some (VList (VDict <$> ps)) /\
    load_projects_config file = normalized <$> ps /\
    length (load_projects_config file) = length ps.
Proof.
  intros Hne. unfold load_projects_config in *.
  destruct file as [loaded|]; [|congruence].
  rewrite parse_projects_yaml_cases in *.
  destruct loaded as [[| | | | |d]|]; try congruence.
  destruct (d !! "projects") as [[| | | |items|]|] eqn:E; try congruence.
  destruct (normalize_items items) as [l|] eqn:El; [|congruence].
  apply normalize_items_Return in El as (ps & -> & ->).
  exists d, ps. split; [reflexivity|]. split; [exact E|].
  split; [reflexivity | apply length_fmap].
Qed.

(** X7 at a document with one record. *)
Lemma load_all_or_nothing_example :
  load_projects_config
    (Return (Return
       (VDict {[ "projects" := VList [VDict {[ "name" := VStr "x" ]}] ]})))
  <> [] /\
  exists (d : dict) (ps : list dict),
    d !! "projects" = Some (VList (VDict <$> ps)) /\ length ps = 1%nat.
Proof.
  assert (load_projects_config
    (Return (Return
       (VDict {[ "projects" := VList [VDict {[ "name" := VStr "x" ]}] ]})))
  <> []) as H.
  { assert (load_projects_config
      (Return (Return
         (VDict {[ "projects" := VList [VDict {[ "name" := VStr "x" ]}] ]})))
      = [normalized {[ "name" := VStr "x" ]}]) as -> by reflexivity.
    intros E. inversion E. }
  split; [exact H|].
  destruct (load_all_or_nothing _ H) as (d & ps & _ & Hd & _ & Hlen).
  exists d, ps. split; [exact Hd|]. rewrite <- Hlen. reflexivity.
Defined.

(** ** From the config file to the index *)

Section ConfigFile.

Lemma existing_map_items_dicts (ps : list dict) (acc : gmap string dict) :
  existing_map_items acc (VDict <$> ps) = existing_map_from acc ps.
Proof.
  revert acc. induction ps as [|p ps IH]; intros acc; [reflexivity|].
  cbn [fmap list_fmap existing_map_items existing_map_from].
  destruct (dict_get p "name"); try apply IH.
  all: cbn [hashable]; reflexivity.
Qed.

Lemma truthy_insert (k : string) (v : value) (d : dict) :
  truthy (VDict (<[k := v]> d)) = true.
Proof.
  cbn [truthy]. destruct (Nat.eqb_spec (size (<[k := v]> d)) 0) as [E|];
    [|reflexivity].
  apply map_size_empty_iff in E. now apply insert_non_empty in E.
Qed.

Lemma truthy_no_projects : truthy no_projects = true.
Proof. apply truthy_insert. Qed.

Lemma existing_map_of_no_projects : existing_map_of no_projects = Return ∅.
Proof. reflexivity. Qed.

(** A document that is a mapping is kept as it is, also the empty mapping,
    in whose place [{'projects': []}] is taken: neither has prior records
    unless [projects] says so. *)
Lemma existing_map_of_mapping (d : dict) :
  existing_map_of (load_existing_config (Some (Return (VDict d))))
  = existing_map_of (VDict d).
Proof.
  cbn [load_existing_config]. unfold py_or. cbn [truthy].
  destruct (Nat.eqb_spec (size d) 0) as [E|]; [|reflexivity].
  apply map_size_empty_iff in E. subst d. reflexivity.
Qed.

Lemma fresh_generate_index (r : Repo.t) :
  generate_index_proj ∅ r
  = fetched_fields r (VStr (get_auto_classification r))
      (VStr (get_animal_for_project (Repo.name r))) ∅.
Proof.
  unfold generate_index_proj. rewrite lookup_empty.
  cbn [default from_option id]. now rewrite !dict_get_empty.
Qed.

Lemma fresh_update_config (r : Repo.t) :
  update_config_proj ∅ r
  = fetched_fields r (VStr (get_auto_classification r))
      (VStr (get_animal_for_project (Repo.name r))) ∅.
Proof. unfold update_config_proj. now rewrite lookup_empty. Qed.

End ConfigFile.

(** X8.  Without a usable config file a run starts afresh.  When the file
    does not exist, cannot be read or parsed, holds an empty or otherwise
    falsy document, or holds a mapping without [projects], both scripts
    take every record from the fetch alone, with the classification the
    heuristic gives and the emoji picked for the name; their lists then
    differ by the logo entry only.  When [projects] is a list of mappings,
    the run is the merge with that list. *)
Theorem config_file_recovered (written : string -> bool)
    (repos : list Repo.t) (file : option (result value)) :
  (file = None \/ (exists e, file = Some (Raise e)) \/
   (exists v, file = Some (Return v) /\ truthy v = false) \/
   (exists d, file = Some (Return (VDict d)) /\ d !! "projects" = None)) ->
  update_config_from_file file repos
  = Return (sort_desc sort_key
      ((fun r => fetched_fields r (VStr (get_auto_classification r))
                   (VStr (get_animal_for_project (Repo.name r))) ∅)
       <$> public_repos repos)) /\
  generate_index_from_file written file repos
  = Return (set_logo written <$> sort_desc sort_key
      ((fun r => fetched_fields r (VStr (get_auto_classification r))
                   (VStr (get_animal_for_project (Repo.name r))) ∅)
       <$> public_repos repos)) /\
  update_config_from_file file repos = update_config repos [] /\
  generate_index_from_file written file repos
  = generate_index written repos [] /\
  (forall d ps,
     update_config_from_file
       (Some (Return (VDict (<["projects" := VList (VDict <$> ps)]> d)))) repos
     = update_config repos ps /\
     generate_index_from_file written
       (Some (Return (VDict (<["projects" := VList (VDict <$> ps)]> d)))) repos
     = generate_index written repos ps).
Proof.
  intros Hfile.
  assert (existing_map_of (load_existing_config file) = Return ∅) as Hm.
  { destruct Hfile as [->|[[e ->]|[[v [-> Hv]]|[d [-> Hd]]]]];
      try reflexivity.
    - cbn [load_existing_config]. now rewrite py_or_falsy.
    - rewrite existing_map_of_mapping. cbn [existing_map_of].
      unfold dict_get_or. now rewrite Hd. }
  assert (forall f g : Repo.t -> dict, (forall r, f r = g r) ->
            f <$> public_repos repos = g <$> public_repos repos) as Hext.
  { intros f g E. apply list_fmap_ext. intros i r _. apply E. }
  unfold update_config_from_file, generate_index_from_file.
  rewrite Hm.
  rewrite (Hext _ _ fresh_update_config), (Hext _ _ fresh_generate_index).
  split; [reflexivity|]. split; [reflexivity|].
  split.
  { unfold update_config. cbn.
    now rewrite (Hext _ _ fresh_update_config). }
  split.
  { unfold generate_index, generate_index_merge. cbn.
    now rewrite (Hext _ _ fresh_generate_index). }
  intros d ps.
  assert (existing_map_of
            (load_existing_config
               (Some (Return (VDict (<["projects" := VList (VDict <$> ps)]> d)))))
          = existing_map ps) as Hps.
  { rewrite existing_map_of_mapping. cbn [existing_map_of].
    unfold dict_get_or. rewrite lookup_insert_eq. cbn [default from_option id].
    apply existing_map_items_dicts. }
  rewrite Hps. unfold update_config, generate_index, generate_index_merge.
  split; now destruct (existing_map ps).
Qed.

(** X8 at an empty config file and one repository fetched. *)
Lemma config_file_recovered_example :
  truthy VNone = false /\
  exists proj,
    update_config_from_file (Some (Return VNone)) [sample_repo "x" None]
    = Return [proj] /\
    proj !! "classification" = Some (VStr "project") /\
    proj !! "image" = Some (VStr "🐾").
Proof.
  split; [reflexivity|].
  destruct (config_file_recovered (fun _ => true) [sample_repo "x" None]
              (Some (Return VNone)))
    as (Hu & _).
  { right. right. left. exists VNone. split; reflexivity. }
  eexists. split; [exact Hu|]. split; reflexivity.
Defined.

(** ** Config documents that make a run fail *)

Section ConfigErrors.

Lemma existing_map_items_bad_item (ps : list dict) (v : value)
    (rest : list value) (acc : gmap string dict) :
  Forall (fun p => hashable (dict_get p "name") = true) ps ->
  (forall p, v <> VDict p) ->
  existing_map_items acc ((VDict <$> ps) ++ v :: rest) = Raise "AttributeError".
Proof.
  intros Hps Hv. revert acc.
  induction Hps as [|p ps Hp _ IH]; intros acc.
  - cbn. destruct v; try reflexivity. now contradiction (Hv d).
  - cbn [fmap list_fmap app existing_map_items].
    destruct (dict_get p "name"); try apply IH; discriminate.
Qed.

Lemma existing_map_items_bad_name (ps : list dict) (p : dict)
    (rest : list value) (acc : gmap string dict) :
  Forall (fun p => hashable (dict_get p "name") = true) ps ->
  hashable (dict_get p "name") = false ->
  existing_map_items acc ((VDict <$> ps) ++ VDict p :: rest) = Raise "TypeError".
Proof.
  intros Hps Hp. revert acc.
  induction Hps as [|q ps Hq _ IH]; intros acc.
  - cbn [fmap list_fmap app existing_map_items].
    destruct (dict_get p "name"); try discriminate; reflexivity.
  - cbn [fmap list_fmap app existing_map_items].
    destruct (dict_get q "name"); try apply IH; discriminate.
Qed.

Lemma runs_raise (written : string -> bool) (repos : list Repo.t)
    (file : option (result value)) (e : string) :
  existing_map_of (load_existing_config file) = Raise e ->
  update_config_from_file file repos = Raise e /\
  generate_index_from_file written file repos = Raise e.
Proof.
  intros H. unfold update_config_from_file, generate_index_from_file.
  now rewrite H.
Qed.

End ConfigErrors.

(** X9.  A config file that is read and parsed but has the wrong shape is
    not recovered: the run of either script raises, before anything is
    written.  That happens for a truthy document that is not a mapping
    ([AttributeError]); for a [projects] left empty or set to a boolean or
    a number ([TypeError]); for a [projects] list with an item that is not
    a mapping ([AttributeError]); and for a record whose name is a list or
    a mapping ([TypeError]). *)
Theorem config_file_not_recovered (written : string -> bool)
    (repos : list Repo.t) (d : dict) :
  (forall v, truthy v = true -> (forall m, v <> VDict m) ->
     update_config_from_file (Some (Return v)) repos = Raise "AttributeError" /\
     generate_index_from_file written (Some (Return v)) repos
       = Raise "AttributeError") /\
  (forall v, v = VNone \/ (exists b, v = VBool b) \/ (exists z, v = VInt z) ->
     update_config_from_file
       (Some (Return (VDict (<["projects" := v]> d)))) repos
       = Raise "TypeError" /\
     generate_index_from_file written
       (Some (Return (VDict (<["projects" := v]> d)))) repos
       = Raise "TypeError") /\
  (forall ps v rest,
     Forall (fun p => hashable (dict_get p "name") = true) ps ->
     (forall m, v <> VDict m) ->
     update_config_from_file
       (Some (Return (VDict
          (<["projects" := VList ((VDict <$> ps) ++ v :: rest)]> d)))) repos
       = Raise "AttributeError" /\
     generate_index_from_file written
       (Some (Return (VDict
          (<["projects" := VList ((VDict <$> ps) ++ v :: rest)]> d)))) repos
       = Raise "AttributeError") /\
  (forall ps p rest,
     Forall (fun p => hashable (dict_get p "name") = true) ps ->
     hashable (dict_get p "name") = false ->
     update_config_from_file
       (Some (Return (VDict
          (<["projects" := VList ((VDict <$> ps) ++ VDict p :: rest)]> d))))
       repos = Raise "TypeError" /\
     generate_index_from_file written
       (Some (Return (VDict
          (<["projects" := VList ((VDict <$> ps) ++ VDict p :: rest)]> d))))
       repos = Raise "TypeError").
Proof.
  split; [|split; [|split]].
  - intros v Hv Hnd. apply runs_raise.
    cbn [load_existing_config]. rewrite py_or_truthy by exact Hv.
    destruct v; try reflexivity. now contradiction (Hnd d0).
  - intros v Hv. apply runs_raise.
    rewrite existing_map_of_mapping. cbn [existing_map_of].
    unfold dict_get_or. rewrite lookup_insert_eq.
    destruct Hv as [->|[[b ->]|[z ->]]]; reflexivity.
  - intros ps v rest Hps Hv. apply runs_raise.
    rewrite existing_map_of_mapping. cbn [existing_map_of].
    unfold dict_get_or. rewrite lookup_insert_eq. cbn [default from_option id].
    now apply existing_map_items_bad_item.
  - intros ps p rest Hps Hp. apply runs_raise.
    rewrite existing_map_of_mapping. cbn [existing_map_of].
    unfold dict_get_or. rewrite lookup_insert_eq. cbn [default from_option id].
    now apply existing_map_items_bad_name.
Qed.

(** X9 at a document that is a list, at [projects:] left empty, and at a
    [projects] list holding a string. *)
Lemma config_file_not_recovered_example :
  update_config_from_file (Some (Return (VList [VStr "a"]))) []
    = Raise "AttributeError" /\
  update_config_from_file
    (Some (Return (VDict (<["projects" := VNone]> ∅)))) []
    = Raise "TypeError" /\
  update_config_from_file
    (Some (Return (VDict
       (<["projects" := VList ((VDict <$> []) ++ VStr "a" :: [])]> ∅)))) []
    = Raise "AttributeError".
Proof.
  destruct (config_file_not_recovered (fun _ => true) [] ∅)
    as (H1 & H2 & H3 & _).
  split; [|split].
  - apply (H1 (VList [VStr "a"])); [reflexivity | discriminate].
  - apply (H2 VNone). now left.
  - apply (H3 [] (VStr "a") []); [constructor | discriminate].
Defined.

(** ** Running again on one's own output *)

Section Rerun.

Lemma animals_not_empty_strings : Forall (fun e => e <> "") animals.
Proof.
  apply Forall_forall. intros e He Hempty. subst e.
  assert (forallb (fun e => negb (String.eqb e "")) animals = true) as H
    by reflexivity.
  rewrite forallb_forall in H. apply list_elem_of_In in He.
  specialize (H "" He). discriminate.
Qed.

Lemma animal_truthy (n : string) :
  truthy (VStr (get_animal_for_project n)) = true.
Proof.
  apply truthy_VStr. pose proof animals_not_empty_strings as H.
  rewrite Forall_forall in H. apply H, list_elem_of_In, pick_In. discriminate.
Qed.

Lemma classification_truthy (r : Repo.t) :
  truthy (VStr (get_auto_classification r)) = true.
Proof.
  unfold get_auto_classification.
  repeat match goal with |- context [if ?b then _ else _] => destruct b end;
    reflexivity.
Qed.

Lemma py_or_result_truthy (a b : value) :
  truthy b = true -> truthy (py_or a b) = true.
Proof. intros Hb. unfold py_or. now destruct (truthy a) eqn:E. Qed.

Lemma fetched_fields_base (r : Repo.t) (c i : value) (b1 b2 : dict)
    (k : string) :
  In k project_keys ->
  fetched_fields r c i b1 !! k = fetched_fields r c i b2 !! k.
Proof.
  intros Hk. unfold project_keys in Hk. cbn [In] in Hk.
  repeat (destruct Hk as [<-|Hk];
          [unfold fetched_fields; now simplify_map_eq|]).
  contradiction.
Qed.

(** Writing the ten entries into a record that has them already leaves it
    as it is. *)
Lemma fetched_fields_absorbed (r : Repo.t) (c i : value) (q base : dict) :
  (forall k, In k project_keys ->
             q !! k = fetched_fields r c i base !! k) ->
  fetched_fields r c i q = q.
Proof.
  intros Hq. apply map_eq. intros k.
  destruct (in_dec string_dec k project_keys) as [Hk|Hk].
  - rewrite (Hq k Hk). now apply fetched_fields_base.
  - now apply fetched_other.
Qed.

Lemma set_logo_idem (written : string -> bool) (p : dict) :
  set_logo written (set_logo written p) = set_logo written p.
Proof.
  unfold set_logo at 1. unfold dict_get.
  rewrite set_logo_other by discriminate.
  fold (dict_get p "name"). unfold set_logo.
  destruct (written _); apply insert_insert_eq.
Qed.

Lemma insert_desc_fmap {A B : Type} (kA : A -> string) (kB : B -> string)
    (f : A -> B) (x : A) (l : list A) :
  (forall a, kB (f a) = kA a) ->
  insert_desc kB (f x) (f <$> l) = f <$> insert_desc kA x l.
Proof.
  intros Hk. induction l as [|y l IH]; [reflexivity|].
  cbn [fmap list_fmap insert_desc] in *. rewrite !Hk.
  destruct (String.leb (kA y) (kA x)); [reflexivity|].
  cbn [list_fmap]. now rewrite IH.
Qed.

(** Sorting commutes with a map that keeps the keys. *)
Lemma sort_desc_fmap {A B : Type} (kA : A -> string) (kB : B -> string)
    (f : A -> B) (l : list A) :
  (forall a, kB (f a) = kA a) ->
  sort_desc kB (f <$> l) = f <$> sort_desc kA l.
Proof.
  intros Hk. induction l as [|x l IH]; [reflexivity|].
  rewrite fmap_cons.
  change (sort_desc kB (f x :: (f <$> l)))
    with (insert_desc kB (f x) (sort_desc kB (f <$> l))).
  change (sort_desc kA (x :: l)) with (insert_desc kA x (sort_desc kA l)).
  rewrite IH. now apply insert_desc_fmap.
Qed.

Lemma prior_record_None (l : list dict) (n : string) :
  VStr n ∉ names l -> prior_record l n = None.
Proof.
  induction l as [|p l IH]; [reflexivity|].
  unfold names. cbn [fmap list_fmap]. rewrite not_elem_of_cons.
  intros [Hp Hl]. cbn [prior_record]. rewrite (IH Hl).
  unfold named. destruct (dict_get p "name"); try reflexivity.
  destruct (String.eqb_spec s n); [congruence | reflexivity].
Qed.

(** When the names of a list are pairwise distinct, the record indexed
    under a name is the record of that name. *)
Lemma prior_record_unique (l : list dict) (n : string) (q : dict) :
  NoDup (names l) -> In q l -> dict_get q "name" = VStr n ->
  prior_record l n = Some q.
Proof.
  induction l as [|p l IH]; [contradiction|].
  unfold names. cbn [fmap list_fmap]. rewrite NoDup_cons.
  intros [Hp Hl] [->|Hin] Hn; cbn [prior_record].
  - rewrite prior_record_None by (rewrite <- Hn; exact Hp).
    unfold named. rewrite Hn. now rewrite String.eqb_refl.
  - now rewrite (IH Hl Hin Hn).
Qed.

End Rerun.

Section RerunRuns.

(** The index built from a list of records [f r], one per repository of
    pairwise distinct names, holds [f r] under the name of [r]. *)
Lemma index_of_own_output (f : Repo.t -> dict) (pubs : list Repo.t) :
  NoDup (Repo.name <$> pubs) ->
  (forall r, dict_get (f r) "name" = VStr (Repo.name r)) ->
  exists m',
    existing_map (sort_desc sort_key (f <$> pubs)) = Return m' /\
    forall r, In r pubs -> m' !! Repo.name r = Some (f r).
Proof.
  intros Hnd Hname.
  assert (names (f <$> pubs) = (fun r => VStr (Repo.name r)) <$> pubs) as Hn.
  { unfold names. rewrite <- list_fmap_compose. apply list_fmap_ext.
    intros i r _. apply Hname. }
  assert (NoDup (names (sort_desc sort_key (f <$> pubs)))) as Hnd'.
  { rewrite names_sort_desc, Hn.
    rewrite (list_fmap_compose Repo.name VStr). now apply NoDup_VStr. }
  destruct (existing_map_returns (sort_desc sort_key (f <$> pubs)))
    as [m' Hm'].
  { apply List.Forall_forall. intros q Hq.
    apply sort_desc_In, in_map_iff in Hq as (r & <- & _).
    now rewrite Hname. }
  exists m'. split; [exact Hm'|]. intros r Hr.
  rewrite (existing_map_lookup _ _ _ Hm').
  apply prior_record_unique; [exact Hnd'| |apply Hname].
  apply sort_desc_In, in_map_iff. now exists r.
Qed.

Lemma generate_index_proj_absorbed (written : string -> bool)
    (m m' : gmap string dict) (r : Repo.t) :
  m' !! Repo.name r = Some (set_logo written (generate_index_proj m r)) ->
  set_logo written (generate_index_proj m' r)
  = set_logo written (generate_index_proj m r).
Proof.
  intros Hm'.
  assert (generate_index_proj m' r
          = set_logo written (generate_index_proj m r)) as ->;
    [|apply set_logo_idem].
  unfold generate_index_proj at 1. rewrite Hm'.
  cbn [default from_option id]. unfold dict_get.
  rewrite !set_logo_other by discriminate.
  fold (dict_get (generate_index_proj m r) "classification").
  fold (dict_get (generate_index_proj m r) "image").
  unfold generate_index_proj at 1 2.
  rewrite (dict_get_Some _ _ _ (fetched_classification _ _ _ _)).
  rewrite (dict_get_Some _ _ _ (fetched_image _ _ _ _)).
  rewrite (py_or_truthy (py_or _ (VStr (get_auto_classification r))))
    by apply py_or_result_truthy, classification_truthy.
  rewrite (py_or_truthy
             (py_or _ (VStr (get_animal_for_project (Repo.name r)))))
    by apply py_or_result_truthy, animal_truthy.
  apply (fetched_fields_absorbed _ _ _ _ (default ∅ (m !! Repo.name r))).
  intros k Hk. rewrite set_logo_other.
  - unfold generate_index_proj. reflexivity.
  - intros ->. unfold project_keys in Hk. cbn in Hk.
    repeat (destruct Hk as [Hk|Hk]; [discriminate|]). exact Hk.
Qed.

Lemma update_config_proj_absorbed (m m' : gmap string dict) (r : Repo.t) :
  m' !! Repo.name r = Some (update_config_proj m r) ->
  update_config_proj m' r = update_config_proj m r.
Proof.
  intros Hm'.
  assert (truthy (VDict (update_config_proj m r)) = true) as Ht
    by (unfold update_config_proj, fetched_fields; apply truthy_insert).
  set (q := update_config_proj m r) in *.
  unfold update_config_proj. rewrite Hm', Ht.
  subst q. unfold update_config_proj.
  now rewrite (dict_get_Some _ _ _ (fetched_classification _ _ _ _)).
Qed.

End RerunRuns.

(** X10.  A run reproduces itself.  When the names fetched are pairwise
    distinct, running either script again with the same fetch and with
    the list it wrote as the prior list writes that same list again:
    nothing drifts from run to run. *)
Theorem rerun_reproduces (written : string -> bool) (repos : list Repo.t)
    (projects : list dict) :
  NoDup (Repo.name <$> public_repos repos) ->
  (forall out, generate_index written repos projects = Return out ->
               generate_index written repos out = Return out) /\
  (forall out, update_config repos projects = Return out ->
               update_config repos out = Return out).
Proof.
  intros Hnd. split; intros out Hout.
  - unfold generate_index, generate_index_merge in Hout.
    destruct (existing_map projects) as [m|] eqn:Hm; [|discriminate].
    injection Hout as <-.
    rewrite <- (sort_desc_fmap sort_key sort_key (set_logo written))
      by apply set_logo_sort_key.
    rewrite <- list_fmap_compose.
    destruct (index_of_own_output
                (set_logo written ∘ generate_index_proj m)
                (public_repos repos) Hnd) as (m' & Hm' & Hlook).
    { intros r. cbn. unfold dict_get.
      rewrite set_logo_other by discriminate.
      now rewrite generate_index_proj_name. }
    unfold generate_index, generate_index_merge. rewrite Hm'. f_equal.
    rewrite <- (sort_desc_fmap sort_key sort_key (set_logo written))
      by apply set_logo_sort_key.
    rewrite <- list_fmap_compose. f_equal.
    apply list_eq_Forall2, Forall2_fmap, Forall_Forall2_diag, List.Forall_forall.
    intros r Hr. cbn.
    apply generate_index_proj_absorbed, Hlook, Hr.
  - unfold update_config in Hout.
    destruct (existing_map projects) as [m|] eqn:Hm; [|discriminate].
    injection Hout as <-.
    destruct (index_of_own_output (update_config_proj m)
                (public_repos repos) Hnd) as (m' & Hm' & Hlook).
    { intros r. apply dict_get_Some, update_config_proj_name. }
    unfold update_config. rewrite Hm'. f_equal. f_equal.
    apply list_eq_Forall2, Forall2_fmap, Forall_Forall2_diag, List.Forall_forall.
    intros r Hr. apply update_config_proj_absorbed, Hlook, Hr.
Qed.

(** X10 at two repositories and a prior list naming one of them. *)
Lemma rerun_reproduces_example :
  NoDup (Repo.name <$> public_repos
           [sample_repo "a" (Some "2024-01-01"); sample_repo "b" None]) /\
  exists out,
    generate_index (fun _ => true)
      [sample_repo "a" (Some "2024-01-01"); sample_repo "b" None]
      [ <["classification" := VStr "training"]> {[ "name" := VStr "b" ]} ]
    = Return out /\
    generate_index (fun _ => true)
      [sample_repo "a" (Some "2024-01-01"); sample_repo "b" None] out
    = Return out.
Proof.
  assert (NoDup (Repo.name <$> public_repos
           [sample_repo "a" (Some "2024-01-01"); sample_repo "b" None]))
    as Hnd.
  { apply (bool_decide_unpack _). vm_compute. reflexivity. }
  split; [exact Hnd|].
  eexists. split; [reflexivity|].
  apply (proj1 (rerun_reproduces (fun _ => true)
                  [sample_repo "a" (Some "2024-01-01"); sample_repo "b" None]
                  [ <["classification" := VStr "training"]>
                      {[ "name" := VStr "b" ]} ] Hnd)).
  reflexivity.
Defined.

(** ** The records a run writes *)

Section WrittenRecords.

Lemma fetched_fields_has (r : Repo.t) (c i : value) (base : dict) (k : string) :
  In k project_keys -> is_Some (fetched_fields r c i base !! k).
Proof.
  intros Hk. unfold project_keys in Hk. cbn [In] in Hk.
  repeat (destruct Hk as [<-|Hk];
          [unfold fetched_fields; simplify_map_eq; eauto|]).
  contradiction.
Qed.

Lemma fetched_fields_dom (r : Repo.t) (c i : value) :
  dom (fetched_fields r c i ∅) = list_to_set project_keys.
Proof.
  unfold fetched_fields. rewrite !dom_insert_L, dom_empty_L.
  unfold project_keys. cbn [list_to_set]. set_solver.
Qed.

Lemma fetched_language (r : Repo.t) (c i : value) (base : dict) :
  fetched_fields r c i base !! "language"
  = Some (VStr (str_or (Repo.language r) "Unknown")).
Proof. unfold fetched_fields. now simplify_map_eq. Qed.

Lemma str_or_nonempty (x : option string) (dflt : string) :
  dflt <> "" -> str_or x dflt <> "".
Proof.
  intros Hd. destruct x as [s|]; cbn; [|exact Hd].
  now destruct (String.eqb_spec s "").
Qed.

Lemma logo_not_standard : ~ In "logo" project_keys.
Proof.
  unfold project_keys. cbn. intros H.
  repeat (destruct H as [H|H]; [discriminate|]). exact H.
Qed.

End WrittenRecords.

(** X11.  What a written record always has.  Every record [generate_index]
    writes has the ten standard entries and a logo entry, a string as
    name, a language that is not empty, and a classification and an image
    that are neither absent nor empty.  Every record [update_config]
    writes has exactly the ten standard entries, and its image is one of
    the emoji of the palette. *)
Theorem written_records_complete (written : string -> bool)
    (repos : list Repo.t) (projects : list dict) :
  (forall out q,
     generate_index written repos projects = Return out -> In q out ->
     (forall k, In k project_keys \/ k = "logo" -> is_Some (q !! k)) /\
     (exists r, In r repos /\ q !! "name" = Some (VStr (Repo.name r))) /\
     (exists s, q !! "language" = Some (VStr s) /\ s <> "") /\
     truthy (dict_get q "classification") = true /\
     truthy (dict_get q "image") = true) /\
  (forall out q,
     update_config repos projects = Return out -> In q out ->
     dom q = list_to_set project_keys /\
     (exists r, In r repos /\ q !! "name" = Some (VStr (Repo.name r))) /\
     (exists s, q !! "language" = Some (VStr s) /\ s <> "") /\
     (exists e, In e animals /\ q !! "image" = Some (VStr e))).
Proof.
  split; intros out q Hout Hq.
  - unfold generate_index, generate_index_merge in Hout.
    destruct (existing_map projects) as [m|]; [|discriminate].
    injection Hout as <-.
    apply in_map_iff in Hq as (q0 & <- & Hq0).
    apply sort_desc_In, in_map_iff in Hq0 as (r & <- & Hr).
    apply public_repos_In in Hr as [Hr _].
    split; [|split; [|split; [|split]]].
    + intros k [Hk | ->].
      * rewrite set_logo_other
          by (intros ->; now apply logo_not_standard).
        now apply fetched_fields_has.
      * unfold set_logo. destruct (written _); rewrite lookup_insert_eq; eauto.
    + exists r. split; [exact Hr|].
      rewrite set_logo_other by discriminate. apply generate_index_proj_name.
    + eexists. split.
      * rewrite set_logo_other by discriminate. apply fetched_language.
      * now apply str_or_nonempty.
    + unfold dict_get. rewrite set_logo_other by discriminate.
      unfold generate_index_proj. rewrite fetched_classification.
      apply py_or_result_truthy, classification_truthy.
    + unfold dict_get. rewrite set_logo_other by discriminate.
      unfold generate_index_proj. rewrite fetched_image.
      apply py_or_result_truthy, animal_truthy.
  - unfold update_config in Hout.
    destruct (existing_map projects) as [m|]; [|discriminate].
    injection Hout as <-.
    apply sort_desc_In, in_map_iff in Hq as (r & <- & Hr).
    apply public_repos_In in Hr as [Hr _].
    split; [apply fetched_fields_dom|].
    split; [exists r; split; [exact Hr | apply update_config_proj_name]|].
    split.
    + eexists. split; [apply fetched_language|].
      now apply str_or_nonempty.
    + eexists. split; [|apply update_config_image].
      apply pick_In. discriminate.
Qed.

(** X11 at one repository fetched and no prior record. *)
Lemma written_records_complete_example :
  exists out q,
    generate_index (fun _ => true) [sample_repo "x" None] [] = Return out /\
    In q out /\
    truthy (dict_get q "classification") = true /\
    is_Some (q !! "logo").
Proof.
  eexists _, _. split; [reflexivity|]. split; [now left|].
  destruct (proj1 (written_records_complete (fun _ => true)
                     [sample_repo "x" None] []) _ _ eq_refl
              (or_introl eq_refl))
    as (Hkeys & _ & _ & Hc & _).
  split; [exact Hc|]. apply Hkeys. now right.
Defined.

Lemma fmap_ext_In {A B : Type} (f g : A -> B) (l : list A) :
  (forall x, In x l -> f x = g x) -> f <$> l = g <$> l.
Proof.
  intros H. apply list_eq_Forall2, Forall2_fmap, Forall_Forall2_diag,
    List.Forall_forall. exact H.
Qed.

(** X12.  The prior list bears on a run only through the last record of
    each fetched name.  Two prior lists that have the same last record
    under the name of every public repository fetched give the same
    output in both scripts: earlier records of a repeated name and
    records of repositories that were not fetched change nothing. *)
Theorem prior_counts_by_last_record (written : string -> bool)
    (repos : list Repo.t) (ps ps' : list dict) (m m' : gmap string dict) :
  existing_map ps = Return m -> existing_map ps' = Return m' ->
  (forall r, In r repos -> Repo.private r = false ->
             prior_record ps (Repo.name r) = prior_record ps' (Repo.name r)) ->
  generate_index written repos ps = generate_index written repos ps' /\
  update_config repos ps = update_config repos ps'.
Proof.
  intros Hm Hm' Hsame.
  assert (forall r, In r (public_repos repos) ->
                    m !! Repo.name r = m' !! Repo.name r) as Hlook.
  { intros r Hr. apply public_repos_In in Hr as [Hr Hpub].
    rewrite (existing_map_lookup _ _ _ Hm), (existing_map_lookup _ _ _ Hm').
    now apply Hsame. }
  unfold generate_index, generate_index_merge, update_config.
  rewrite Hm, Hm'.
  rewrite (fmap_ext_In (generate_index_proj m) (generate_index_proj m')),
    (fmap_ext_In (update_config_proj m) (update_config_proj m')).
  - split; reflexivity.
  - intros r Hr. unfold update_config_proj. now rewrite (Hlook r Hr).
  - intros r Hr. unfold generate_index_proj. now rewrite (Hlook r Hr).
Qed.

(** X12 at a prior list with a shadowed record and a record that was not
    fetched, against the prior list without them. *)
Lemma prior_counts_by_last_record_example :
  generate_index (fun _ => true) [sample_repo "x" None]
    [ <["classification" := VStr "training"]> {[ "name" := VStr "x" ]};
      {[ "name" := VStr "gone" ]};
      <["classification" := VStr "project"]> {[ "name" := VStr "x" ]} ]
  = generate_index (fun _ => true) [sample_repo "x" None]
    [ <["classification" := VStr "project"]> {[ "name" := VStr "x" ]} ].
Proof.
  refine (proj1 (prior_counts_by_last_record (fun _ => true)
            [sample_repo "x" None]
            [ <["classification" := VStr "training"]> {[ "name" := VStr "x" ]};
              {[ "name" := VStr "gone" ]};
              <["classification" := VStr "project"]> {[ "name" := VStr "x" ]} ]
            [ <["classification" := VStr "project"]> {[ "name" := VStr "x" ]} ]
            _ _ eq_refl eq_refl _)).
  intros r [<-|[]] _. reflexivity.
Defined.

(** ** Lists that are sorted already *)

Section AlreadySorted.

Lemma sort_desc_sorted_id {A : Type} (key : A -> string) (l : list A) :
  StronglySorted (key_ge key) l -> sort_desc key l = l.
Proof.
  induction 1 as [|x l Hl IH Hx]; [reflexivity|].
  change (sort_desc key (x :: l)) with (insert_desc key x (sort_desc key l)).
  rewrite IH. destruct l as [|y l]; [reflexivity|].
  cbn [insert_desc]. apply List.Forall_inv in Hx.
  unfold key_ge in Hx. now rewrite Hx.
Qed.

Lemma sorted_fmap {A B : Type} (kA : A -> string) (kB : B -> string)
    (f : A -> B) (l : list A) :
  (forall a, kB (f a) = kA a) ->
  StronglySorted (key_ge kA) l -> StronglySorted (key_ge kB) (f <$> l).
Proof.
  intros Hk. induction 1 as [|x l Hl IH Hx]; [constructor|].
  rewrite fmap_cons. constructor; [exact IH|].
  apply List.Forall_forall. intros b Hb.
  apply in_map_iff in Hb as (a & <- & Ha).
  rewrite List.Forall_forall in Hx. specialize (Hx a Ha).
  unfold key_ge in *. now rewrite !Hk.
Qed.

End AlreadySorted.

(** X13.  A fetch that is already in descending order of [updated_at]
    (repositories without timestamp last) is written in fetch order by
    both scripts: the sort moves nothing. *)
Theorem fetch_order_kept (written : string -> bool) (repos : list Repo.t)
    (projects : list dict) (m : gmap string dict) :
  existing_map projects = Return m ->
  StronglySorted
    (key_ge (fun r => default "" (Repo.updated_at r))) (public_repos repos) ->
  generate_index written repos projects
  = Return ((fun r => set_logo written (generate_index_proj m r))
            <$> public_repos repos) /\
  update_config repos projects
  = Return (update_config_proj m <$> public_repos repos).
Proof.
  intros Hm Hs.
  unfold generate_index, generate_index_merge, update_config. rewrite Hm.
  rewrite !sort_desc_sorted_id.
  - split; [|reflexivity]. now rewrite <- list_fmap_compose.
  - eapply sorted_fmap; [|exact Hs].
    intros a. apply update_config_proj_key.
  - eapply sorted_fmap; [|exact Hs].
    intros a. apply generate_index_proj_key.
Qed.

(** X13 at a fetch of two repositories, the later updated first. *)
Lemma fetch_order_kept_example :
  StronglySorted (key_ge (fun r => default "" (Repo.updated_at r)))
    (public_repos [sample_repo "b" (Some "2024-02-01");
                   sample_repo "a" (Some "2024-01-01")]) /\
  exists out,
    update_config [sample_repo "b" (Some "2024-02-01");
                   sample_repo "a" (Some "2024-01-01")] [] = Return out /\
    names out = [VStr "b"; VStr "a"].
Proof.
  assert (StronglySorted (key_ge (fun r => default "" (Repo.updated_at r)))
    (public_repos [sample_repo "b" (Some "2024-02-01");
                   sample_repo "a" (Some "2024-01-01")])) as Hs.
  { cbn. repeat constructor. }
  split; [exact Hs|].
  destruct (fetch_order_kept (fun _ => true) _ [] ∅ eq_refl Hs) as [_ Hu].
  eexists. split; [exact Hu|]. reflexivity.
Defined.

(** ** Grouping by class *)

Section Groups.

Lemma projects_by_class_from_lookup (l : list dict)
    (acc g : gmap string (list dict)) (cls : string) :
  projects_by_class_from acc l = Return g ->
  g !! cls =
    match List.filter (fun p => eq_str (class_of p) cls) l with
    | [] => acc !! cls
    | grp => Some (default [] (acc !! cls) ++ grp)
    end.
Proof.
  revert acc. induction l as [|p l IH]; intros acc H.
  - injection H as <-. reflexivity.
  - cbn [projects_by_class_from] in H. cbn [List.filter].
    destruct (class_of p) as [| | |c| |] eqn:Ec; cbn [hashable eq_str] in *;
      try discriminate; try (now apply IH).
    rewrite (IH _ H). destruct (String.eqb_spec c cls) as [->|Hne].
    + rewrite lookup_insert_eq. cbn [default from_option id].
      destruct (List.filter _ l); [reflexivity|].
      now rewrite <- app_assoc.
    + now rewrite lookup_insert_ne.
Qed.

Lemma projects_by_class_from_returns (l : list dict)
    (acc : gmap string (list dict)) :
  Forall (fun p => hashable (class_of p) = true) l ->
  exists g, projects_by_class_from acc l = Return g.
Proof.
  intros H. revert acc.
  induction H as [|p l Hp _ IH]; intros acc; [now exists acc|].
  cbn [projects_by_class_from].
  destruct (class_of p); try apply IH; discriminate.
Qed.

Lemma generate_index_class (written : string -> bool) (m : gmap string dict)
    (r : Repo.t) :
  truthy (dict_get (set_logo written (generate_index_proj m r))
                   "classification") = true.
Proof.
  unfold dict_get. rewrite set_logo_other by discriminate.
  unfold generate_index_proj. rewrite fetched_classification.
  apply py_or_result_truthy, classification_truthy.
Qed.

End Groups.

(** X14.  The grouping for the page puts every record in the group of its
    class and keeps the order of the list inside each group: the group
    under a class is the sub-list of the records of that class, and no
    group is empty.  The grouping is built whenever no class is a list or
    a mapping.  In [generate_index] a record's class is always its
    classification: the fallback to "project" is never taken, since no
    record is written with an absent or empty classification. *)
Theorem groups_keep_order (l : list dict) :
  (forall g cls,
     projects_by_class l = Return g ->
     default [] (g !! cls)
       = List.filter (fun p => eq_str (class_of p) cls) l /\
     (g !! cls = None <->
        List.filter (fun p => eq_str (class_of p) cls) l = [])) /\
  (Forall (fun p => hashable (class_of p) = true) l ->
     exists g, projects_by_class l = Return g) /\
  (forall written repos projects q,
     generate_index written repos projects = Return l -> In q l ->
     class_of q = dict_get q "classification").
Proof.
  split; [|split].
  - intros g cls Hg.
    rewrite (projects_by_class_from_lookup _ _ _ cls Hg), lookup_empty.
    destruct (List.filter _ l) as [|x grp].
    + split; [reflexivity|]. split; reflexivity.
    + split; [reflexivity|]. split; discriminate.
  - apply projects_by_class_from_returns.
  - intros written repos projects q Hout Hq.
    unfold generate_index, generate_index_merge in Hout.
    destruct (existing_map projects) as [m|]; [|discriminate].
    injection Hout as <-.
    apply in_map_iff in Hq as (q0 & <- & Hq0).
    apply sort_desc_In, in_map_iff in Hq0 as (r & <- & Hr).
    unfold class_of. apply py_or_truthy, generate_index_class.
Qed.

(** X14 at a list of three records, the second without classification. *)
Lemma groups_keep_order_example :
  Forall (fun p => hashable (class_of p) = true)
    [ <["classification" := VStr "training"]> {[ "name" := VStr "a" ]};
      {[ "name" := VStr "b" ]};
      <["classification" := VStr "training"]> {[ "name" := VStr "c" ]} ] /\
  exists g,
    projects_by_class
      [ <["classification" := VStr "training"]> {[ "name" := VStr "a" ]};
        {[ "name" := VStr "b" ]};
        <["classification" := VStr "training"]> {[ "name" := VStr "c" ]} ]
    = Return g /\
    names (default [] (g !! "training")) = [VStr "a"; VStr "c"] /\
    names (default [] (g !! "project")) = [VStr "b"].
Proof.
  assert (Forall (fun p => hashable (class_of p) = true)
    [ <["classification" := VStr "training"]> {[ "name" := VStr "a" ]};
      {[ "name" := VStr "b" ]};
      <["classification" := VStr "training"]> {[ "name" := VStr "c" ]} ])
    as Hh by (repeat constructor).
  split; [exact Hh|].
  destruct (groups_keep_order
    [ <["classification" := VStr "training"]> {[ "name" := VStr "a" ]};
      {[ "name" := VStr "b" ]};
      <["classification" := VStr "training"]> {[ "name" := VStr "c" ]} ])
    as (Hgroups & Hret & _).
  destruct (Hret Hh) as [g Hg]. exists g. split; [exact Hg|].
  split.
  - rewrite (proj1 (Hgroups g "training" Hg)). reflexivity.
  - rewrite (proj1 (Hgroups g "project" Hg)). reflexivity.
Defined.

(** ** The numbers logged *)

Section Counts.

Lemma count_cons (label : string) (p : dict) (l : list dict) :
  count_classification label (p :: l)
  = ((if eq_str (dict_get p "classification") label then 1 else 0)
     + count_classification label l)%nat.
Proof.
  unfold count_classification. cbn [List.filter].
  now destruct (eq_str (dict_get p "classification") label).
Qed.

Lemma eq_str_spec (v : value) (s : string) : eq_str v s = true <-> v = VStr s.
Proof.
  destruct v; cbn; try (split; [discriminate | congruence]).
  rewrite String.eqb_eq. split; congruence.
Qed.

Lemma counts_bound (l : list dict) :
  (count_classification "training" l + count_classification "project" l
   <= length l)%nat /\
  (count_classification "training" l + count_classification "project" l
   = length l <->
   Forall (fun p => dict_get p "classification" = VStr "training" \/
                    dict_get p "classification" = VStr "project") l).
Proof.
  induction l as [|p l [IHle IHeq]].
  - split; [cbn; lia|]. split; [constructor | reflexivity].
  - rewrite !count_cons. cbn [length]. rewrite List.Forall_cons_iff, <- IHeq.
    rewrite <- !eq_str_spec.
    destruct (dict_get p "classification") as [| | |s| |]; cbn [eq_str];
      try (split; [lia|]; split; [lia | intros [[H|H] _]; discriminate]).
    destruct (String.eqb_spec s "training") as [->|Ht].
    + cbn. split; [lia|]. split; [intros H; split; [auto | lia] | lia].
    + destruct (String.eqb_spec s "project") as [->|Hp].
      * cbn. split; [lia|]. split; [intros H; split; [auto | lia] | lia].
      * split; [lia|]. split; [lia | intros [[H|H] _]; discriminate].
Qed.

End Counts.

(** X15.  The numbers logged after a run.  Training and Projects never
    add up to more than the Total, and they add up to the Total exactly
    when every record written is classified "training" or "project".
    That is so whenever there was no prior list; a prior classification
    outside the two labels, and in [update_config] a missing one, is
    counted in neither number. *)
Theorem logged_counts (written : string -> bool) (repos : list Repo.t)
    (l : list dict) :
  (count_classification "training" l + count_classification "project" l
   <= length l)%nat /\
  (count_classification "training" l + count_classification "project" l
   = length l <->
   Forall (fun p => dict_get p "classification" = VStr "training" \/
                    dict_get p "classification" = VStr "project") l) /\
  (generate_index written repos [] = Return l ->
   (count_classification "training" l + count_classification "project" l
    = length l)%nat) /\
  (update_config repos [] = Return l ->
   (count_classification "training" l + count_classification "project" l
    = length l)%nat).
Proof.
  destruct (counts_bound l) as [Hle Heq].
  split; [exact Hle|]. split; [exact Heq|].
  assert (forall r, get_auto_classification r = "training" \/
                    get_auto_classification r = "project") as Hcls.
  { intros r. unfold get_auto_classification.
    repeat match goal with |- context [if ?b then _ else _] => destruct b end;
      auto. }
  split; intros Hout; apply Heq, List.Forall_forall; intros q Hq.
  - unfold generate_index, generate_index_merge in Hout. cbn in Hout.
    injection Hout as <-.
    apply in_map_iff in Hq as (q0 & <- & Hq0).
    apply sort_desc_In, in_map_iff in Hq0 as (r & <- & Hr).
    unfold dict_get. rewrite set_logo_other by discriminate.
    rewrite fresh_generate_index, fetched_classification.
    cbn [default from_option id].
    destruct (Hcls r) as [-> | ->]; auto.
  - unfold update_config in Hout. cbn in Hout. injection Hout as <-.
    apply sort_desc_In, in_map_iff in Hq as (r & <- & Hr).
    unfold dict_get. rewrite fresh_update_config, fetched_classification.
    cbn [default from_option id].
    destruct (Hcls r) as [-> | ->]; auto.
Qed.

(** X15 at a first run over two repositories. *)
Lemma logged_counts_example :
  exists out,
    update_config [sample_repo "demo" None; sample_repo "lib" None] []
    = Return out /\
    (count_classification "training" out + count_classification "project" out
     = length out)%nat /\
    count_classification "training" out = 1%nat.
Proof.
  eexists. split; [reflexivity|]. split; [|reflexivity].
  apply (proj2 (proj2 (proj2 (logged_counts (fun _ => true)
    [sample_repo "demo" None; sample_repo "lib" None] _)))).
  reflexivity.
Defined.

(** ** The logger configuration *)

Section Logger.

Lemma not_none_Some (v w : value) : not_none v = Some w -> w = v /\ v <> VNone.
Proof. destruct v; cbn; intros [= <-]; split; congruence. Qed.

Lemma default_config_null (k : string) :
  DEFAULT_CONFIG !! k = Some VNone -> k = "file".
Proof.
  intros H. unfold DEFAULT_CONFIG in H.
  destruct (decide (k = "file")) as [|Hf]; [assumption|].
  rewrite lookup_insert_ne in H by congruence.
  destruct (decide (k = "console")) as [->|Hc].
  { rewrite lookup_insert_eq in H. discriminate. }
  rewrite lookup_insert_ne in H by congruence.
  destruct (decide (k = "level")) as [->|Hl].
  { rewrite lookup_singleton_eq in H. discriminate. }
  rewrite lookup_singleton_ne in H by congruence. discriminate.
Qed.

End Logger.

(** X16.  [_load_config] never loses a default.  Whatever the path and the
    file, the configuration returned has an entry for [level], [console]
    and [file]; a null in the file overrides nothing, so [file] is the
    only entry that can be null; every entry of the file that is not null
    is taken over.  Without a path, without the file or the YAML module,
    on an error, and on a document that is not a mapping, the
    configuration returned is the default one. *)
Theorem load_config_keeps_defaults (path : option string)
    (path_exists yaml_imported : bool) (loaded : result value) :
  dom DEFAULT_CONFIG ⊆ dom (_load_config path path_exists yaml_imported loaded)
  /\
  (forall k, _load_config path path_exists yaml_imported loaded !! k
             = Some VNone -> k = "file") /\
  (forall data k v,
     default "" path <> "" -> path_exists = true -> yaml_imported = true ->
     loaded = Return (VDict data) ->
     data !! k = Some v -> v <> VNone ->
     _load_config path path_exists yaml_imported loaded !! k = Some v) /\
  (default "" path = "" \/ path_exists = false \/ yaml_imported = false \/
   (exists e, loaded = Raise e) \/
   (exists v, loaded = Return v /\ truthy v = true /\ forall d, v <> VDict d) ->
   _load_config path path_exists yaml_imported loaded = DEFAULT_CONFIG).
Proof.
  assert (forall data : dict,
            dom DEFAULT_CONFIG ⊆ dom (omap not_none data ∪ DEFAULT_CONFIG) /\
            (forall k, (omap not_none data ∪ DEFAULT_CONFIG) !! k = Some VNone ->
                       k = "file")) as Hcfg.
  { intros data. split; [rewrite dom_union_L; apply union_subseteq_r|].
    intros k Hk. apply lookup_union_Some_raw in Hk as [Hk|[_ Hk]].
    - rewrite lookup_omap in Hk.
      destruct (data !! k) as [v|]; [|discriminate]. cbn in Hk.
      apply not_none_Some in Hk as [Hw Hv]. congruence.
    - now apply default_config_null. }
  assert (dom DEFAULT_CONFIG ⊆ dom DEFAULT_CONFIG /\
          (forall k, DEFAULT_CONFIG !! k = Some VNone -> k = "file")) as Hdef.
  { split; [reflexivity | apply default_config_null]. }
  assert (dom DEFAULT_CONFIG
            ⊆ dom (_load_config path path_exists yaml_imported loaded) /\
          (forall k, _load_config path path_exists yaml_imported loaded !! k
                     = Some VNone -> k = "file")) as [H1 H2].
  { unfold _load_config.
    destruct (String.eqb (default "" path) ""); [exact Hdef|].
    destruct (negb path_exists || negb yaml_imported); [exact Hdef|].
    destruct loaded as [v|]; [|exact Hdef].
    destruct (py_or v (VDict ∅)); try exact Hdef. apply Hcfg. }
  split; [exact H1|]. split; [exact H2|]. split.
  - intros data k v Hp -> -> -> Hk Hv. unfold _load_config.
    apply String.eqb_neq in Hp. rewrite Hp. cbn [negb orb].
    assert (py_or (VDict data) (VDict ∅) = VDict data) as ->.
    { apply py_or_truthy. cbn [truthy].
      destruct (Nat.eqb_spec (size data) 0) as [E|]; [|reflexivity].
      apply map_size_empty_iff in E. subst data.
      now rewrite lookup_empty in Hk. }
    apply lookup_union_Some_l. rewrite lookup_omap, Hk. cbn.
    now destruct v.
  - intros H. unfold _load_config.
    destruct (String.eqb_spec (default "" path) "") as [|Hp]; [reflexivity|].
    destruct path_exists, yaml_imported; cbn [negb orb]; try reflexivity.
    destruct H as [H|[H|[H|[[e ->]|[v [-> [Hv Hnd]]]]]]];
      try congruence; try reflexivity.
    rewrite py_or_truthy by exact Hv.
    destruct v; try reflexivity. now contradiction (Hnd d).
Qed.

(** X16 at a config file that sets the level and nulls the console. *)
Lemma load_config_keeps_defaults_example :
  _load_config (Some "config.yaml") true true
    (Return (VDict (<["console" := VNone]> {[ "level" := VStr "debug" ]})))
  !! "level" = Some (VStr "debug") /\
  _load_config (Some "config.yaml") true true
    (Return (VDict (<["console" := VNone]> {[ "level" := VStr "debug" ]})))
  !! "console" = Some (VBool true).
Proof.
  split.
  - apply (proj1 (proj2 (proj2 (load_config_keeps_defaults
             (Some "config.yaml") true true
             (Return (VDict (<["console" := VNone]>
                               {[ "level" := VStr "debug" ]}))))))
             (<["console" := VNone]> {[ "level" := VStr "debug" ]})
             "level" (VStr "debug"));
      try reflexivity; discriminate.
  - reflexivity.
Defined.

(** ** Logo files that cannot be written *)

Section Logos.

Lemma delete_set_logo (written : string -> bool) (p : dict) :
  delete "logo" (set_logo written p) = delete "logo" p.
Proof. unfold set_logo. destruct (written _); apply delete_insert_eq. Qed.

Lemma set_logo_name (written : string -> bool) (m : gmap string dict)
    (r : Repo.t) :
  set_logo written (generate_index_proj m r) !! "logo"
  = Some (VStr (if written ("assets/images/"
                             +:+ _slug (str_or (Some (Repo.name r)) "proj")
                             +:+ ".svg")
                then "assets/images/"
                       +:+ _slug (str_or (Some (Repo.name r)) "proj")
                       +:+ ".svg"
                else "")).
Proof.
  unfold set_logo.
  rewrite (dict_get_Some _ _ _ (generate_index_proj_name m r)).
  assert (str_of (py_or (VStr (Repo.name r)) (VStr "proj"))
          = str_or (Some (Repo.name r)) "proj") as ->.
  { unfold py_or. cbn.
    now destruct (String.eqb (Repo.name r) ""). }
  destruct (written _); now rewrite lookup_insert_eq.
Qed.

End Logos.

(** X17.  A logo file that cannot be written costs that logo and nothing
    else.  Whatever writes fail, [generate_index] writes the same records
    in the same order with the same entries apart from [logo]; the logo
    entry of a record is the path [assets/images/<slug>.svg], with the
    slug of the repository's name (of "proj" when the name is empty),
    when that file was written, and the empty string when it was not. *)
Theorem failed_logo_costs_only_the_logo (written written' : string -> bool)
    (repos : list Repo.t) (projects : list dict) (out out' : list dict) :
  generate_index written repos projects = Return out ->
  generate_index written' repos projects = Return out' ->
  delete "logo" <$> out = delete "logo" <$> out' /\
  names out = names out' /\
  (forall q, In q out ->
     exists r, In r repos /\ Repo.private r = false /\
       q !! "name" = Some (VStr (Repo.name r)) /\
       q !! "logo"
       = Some (VStr (if written ("assets/images/"
                                  +:+ _slug (str_or (Some (Repo.name r)) "proj")
                                  +:+ ".svg")
                     then "assets/images/"
                            +:+ _slug (str_or (Some (Repo.name r)) "proj")
                            +:+ ".svg"
                     else ""))).
Proof.
  unfold generate_index, generate_index_merge.
  destruct (existing_map projects) as [m|]; [|discriminate].
  intros [= <-] [= <-].
  split; [|split].
  - rewrite <- !list_fmap_compose. apply list_fmap_ext.
    intros i p _. cbn. now rewrite !delete_set_logo.
  - now rewrite !names_set_logo.
  - intros q Hq. apply in_map_iff in Hq as (q0 & <- & Hq0).
    apply sort_desc_In, in_map_iff in Hq0 as (r & <- & Hr).
    apply public_repos_In in Hr as [Hr Hpub].
    exists r. split; [exact Hr|]. split; [exact Hpub|]. split.
    + rewrite set_logo_other by discriminate. apply generate_index_proj_name.
    + apply set_logo_name.
Qed.

(** X17 at two repositories, with every write failing in the second run. *)
Lemma failed_logo_costs_only_the_logo_example :
  exists out out',
    generate_index (fun _ => true)
      [sample_repo "a" None; sample_repo "b" None] [] = Return out /\
    generate_index (fun _ => false)
      [sample_repo "a" None; sample_repo "b" None] [] = Return out' /\
    delete "logo" <$> out = delete "logo" <$> out' /\
    (fun q => dict_get q "logo") <$> out
      = [VStr "assets/images/a.svg"; VStr "assets/images/b.svg"] /\
    (fun q => dict_get q "logo") <$> out' = [VStr ""; VStr ""].
Proof.
  eexists _, _. split; [reflexivity|]. split; [reflexivity|].
  split; [|split; reflexivity].
  exact (proj1 (failed_logo_costs_only_the_logo
                  (fun _ => true) (fun _ => false)
                  [sample_repo "a" None; sample_repo "b" None] [] _ _
                  eq_refl eq_refl)).
Defined.
